(** * Icetea transaction-execution core: a shallow embedding

    The development follows the JavaScript sources:
    - [app.js]             ([checkTx], [execTx], [doExecTx], [willCallContract],
      [getContractAddresses]);
    - [vm/js/Context.js]   ([contextForView]);
    - the election system contract ([propose], [resign], [vote],
      [getCandidates], [getValidators], [punish]);
    - the gate system contract ([request], [getRequest], and, on plain
      data, the provider registry and the delivery: [registerProvider],
      [getProvider], [pauseProvider], [unregisterProvider], [setResult]);
    - [web/index.js]       ([fmtHex]).

    JavaScript numbers are modelled by [Z]: the code uses them as block
    heights, counters and rates, and where a caller chooses the values a
    statement about their sum takes them to be safe integers
    ([isSafeInteger]);
    BigInt values by [Z] with truncating division ([Z.quot]), plain objects
    used as dictionaries by key-ordered association lists ([Obj]) or, where
    the enumeration order is never observed, by [gmap]. An exception is a
    value [Throw e] of the [Result] type. *)

From stdpp Require Import base option list strings gmap pretty.
From Stdlib Require Import ZArith Sorted Permutation Lia Ascii.

Local Open Scope string_scope.
Local Open Scope list_scope.
Local Open Scope Z_scope.

(** ** Exceptions and results *)

Inductive Exn :=
| Error (msg : string)       (* [throw new Error(msg)] *)
| TypeError (msg : string).  (* raised by the runtime itself *)

Inductive Result (A : Type) :=
| Ok (a : A)
| Throw (e : Exn).
Arguments Ok {A} a.
Arguments Throw {A} e.

#[global] Instance Result_ret : MRet Result := fun A a => Ok a.
#[global] Instance Result_bind : MBind Result := fun A B f m =>
  match m with
  | Ok a => f a
  | Throw e => Throw e
  end.

Definition isOk {A} (r : Result A) : bool :=
  match r with Ok _ => true | Throw _ => false end.

Lemma bind_Ok {A B} (m : Result A) (f : A -> Result B) (b : B) :
  m ≫= f = Ok b -> exists a, m = Ok a /\ f a = Ok b.
Proof. destruct m as [a|e]; simpl; [eauto | discriminate]. Qed.

(** ** Plain objects with insertion-ordered keys

    Keys that are not array indices (addresses, public keys, field names)
    enumerate in the order in which they were first set; a key that is an
    array index would enumerate before them, so a statement about the
    position of a new key takes the key not to be made of digits
    ([digitsOnly]). [obj_get] finds the object's own properties; where a
    caller chooses the key, the names inherited from the prototype
    ([objectPrototypeNames]) are dealt with at the lookup. *)

Abbreviation Obj V := (list (string * V)).

Section Objects.
Context {V : Type}.

(* [o[k]] *)
Fixpoint obj_get (k : string) (o : Obj V) : option V :=
  match o with
  | [] => None
  | (k', v) :: o' => if String.eqb k k' then Some v else obj_get k o'
  end.

(* [o[k] = v]: an existing key keeps its position, a new key that is not
   an array index goes last *)
Fixpoint obj_set (k : string) (v : V) (o : Obj V) : Obj V :=
  match o with
  | [] => [(k, v)]
  | (k', v') :: o' =>
      if String.eqb k k' then (k, v) :: o' else (k', v') :: obj_set k v o'
  end.

(* [delete o[k]] *)
Fixpoint obj_delete (k : string) (o : Obj V) : Obj V :=
  match o with
  | [] => []
  | (k', v') :: o' =>
      if String.eqb k k' then obj_delete k o' else (k', v') :: obj_delete k o'
  end.

Definition obj_keys (o : Obj V) : list string := o.*1.
Definition obj_values (o : Obj V) : list V := o.*2.

Lemma obj_get_set_eq k v o : obj_get k (obj_set k v o) = Some v.
Proof.
  induction o as [|[k' v'] o IH]; simpl.
  - by rewrite String.eqb_refl.
  - destruct (String.eqb k k') eqn:E; simpl.
    + by rewrite String.eqb_refl.
    + by rewrite E.
Qed.

Lemma obj_get_set_ne k k' v o :
  k <> k' -> obj_get k' (obj_set k v o) = obj_get k' o.
Proof.
  intros Hne. induction o as [|[k0 v0] o IH]; simpl.
  - destruct (String.eqb k' k) eqn:E; [|done].
    apply String.eqb_eq in E. congruence.
  - destruct (String.eqb k k0) eqn:E; simpl.
    + apply String.eqb_eq in E. subst k0.
      destruct (String.eqb k' k) eqn:E'; [|done].
      apply String.eqb_eq in E'. congruence.
    + by rewrite IH.
Qed.

Lemma obj_get_delete_eq k o : obj_get k (obj_delete k o) = None.
Proof.
  induction o as [|[k' v'] o IH]; simpl; [done|].
  destruct (String.eqb k k') eqn:E; simpl; [done|]. by rewrite E.
Qed.

Lemma obj_keys_set_present k v v0 o :
  obj_get k o = Some v0 -> obj_keys (obj_set k v o) = obj_keys o.
Proof.
  unfold obj_keys. induction o as [|[k' v'] o IH]; simpl; [done|].
  destruct (String.eqb k k') eqn:E; simpl.
  - apply String.eqb_eq in E. by subst.
  - intros H. f_equal. by apply IH.
Qed.
End Objects.

(* [Array.prototype.includes] on an array of strings *)
Definition includes (l : list string) (x : string) : bool :=
  existsb (String.eqb x) l.

(* the names every plain object inherits from [Object.prototype]: [o[k]]
   with one of them as [k] finds a function (or, for [__proto__], the
   prototype itself) when [o] has no property of its own under [k] *)
Definition objectPrototypeNames : list string :=
  ["constructor"; "__defineGetter__"; "__defineSetter__"; "hasOwnProperty";
   "__lookupGetter__"; "__lookupSetter__"; "isPrototypeOf"; "propertyIsEnumerable";
   "toString"; "valueOf"; "__proto__"; "toLocaleString"].

(* [Number.isSafeInteger]: the integers up to which the addition of numbers
   is the addition of integers *)
Definition MAX_SAFE_INTEGER : Z := 2 ^ 53 - 1.
Definition isSafeInteger (n : Z) : Prop := - MAX_SAFE_INTEGER <= n <= MAX_SAFE_INTEGER.

(* a key made of decimal digits only. The keys that are canonical array
   indices ("0", "7", "1234") are among these; an object enumerates such
   keys before all others, in numeric order, wherever they were set. *)
Definition isDigit (c : ascii) : bool :=
  (48 <=? nat_of_ascii c)%nat && (nat_of_ascii c <=? 57)%nat.
Fixpoint digitsOnly (s : string) : bool :=
  match s with
  | EmptyString => true
  | String c s' => isDigit c && digitsOnly s'
  end.

(** ** The election system contract *)

Module Election.

(* [config.election]; the configuration module is not part of the sources,
   its values are parameters *)
Record Config := {
  minValidatorDeposit : Z;
  minVoterValue : Z;
  numberOfValidators : nat }.

Record Candidate := {
  deposit : Z;                     (* BigInt *)
  block : Z;                       (* registration block *)
  operator : string;
  name : string;
  voters : option (Obj Z);         (* address -> BigInt, absent before the first vote *)
  jailed : bool;                   (* an absent flag reads as false *)
  jailedUntilBlock : option Z;
  slashed : option Z }.            (* BigInt *)

(* pubkey or address -> unlock block -> pending amount *)
Abbreviation WithdrawList := (gmap string (gmap Z Z)).

(** Modelled from the spec: the execution context of a system contract and
    the state manager behind [unsafeStateManager()] are not part of the
    sources. The contract reaches its storage through
    [context.getState(key, defVal)], which gives the value stored under the
    key or [defVal] when there is none, and [context.setState(key, value)],
    as [getState] and [setState] of [contextForWrite] in [vm/js/Context.js]
    do; [punish] and the exported [getValidators] read the same storage from
    the account state. The storage has the keys 'candidates' and
    'withdraw'. *)
Record Storage := {
  candidates : option (Obj Candidate);
  withdraw : option WithdrawList }.

Record Msg := { sender : string; signers : list string; value : Z }.
Record Block := { number : Z; timestamp : Z }.

(* [c => c.getState(CANDIDATES_KEY, {})]; [c] is [None] when the caller
   passes no argument, and then the property access raises *)
Definition _rawCandidates (c : option Storage) : Result (Obj Candidate) :=
  match c with
  | Some ctx => Ok (default [] (candidates ctx))
  | None => Throw (TypeError "Cannot read property 'getState' of undefined")
  end.

(* [c => c.getState(WITHDRAW_KEY, {})] *)
Definition _rawWithdrawList (c : option Storage) : Result WithdrawList :=
  match c with
  | Some ctx => Ok (default ∅ (withdraw ctx))
  | None => Throw (TypeError "Cannot read property 'getState' of undefined")
  end.

(* [context.setState(CANDIDATES_KEY, v)] and [context.setState(WITHDRAW_KEY, v)] *)
Definition setCandidates (v : option (Obj Candidate)) (ctx : Storage) : Storage :=
  {| candidates := v; withdraw := withdraw ctx |}.
Definition setWithdraw (v : option WithdrawList) (ctx : Storage) : Storage :=
  {| candidates := candidates ctx; withdraw := v |}.

(* [_addToWithdrawList] *)
Definition _addToWithdrawList (withdrawList : WithdrawList) (pubkey : string)
    (amount unlockBlock : Z) : WithdrawList :=
  let w := default ∅ (withdrawList !! pubkey) in
  <[pubkey := <[unlockBlock := default 0 (w !! unlockBlock) + amount]> w]> withdrawList.

(** *** Candidates, capacity and ranking *)

(* a clone of a candidate record, extended with [pubKey] and [capacity] *)
Record CandidateInfo := {
  info : Candidate;
  pubKey : string;                 (* [{ type: 'ed25519', data: key }] *)
  capacity : option Z }.           (* absent until [_populateCapacity] *)

(* [_getCandidates] *)
Definition _getCandidates (cands : Obj Candidate) (includeJailed : bool)
    : list CandidateInfo :=
  omap (fun '(key, value) =>
          if includeJailed || negb (jailed value)
          then Some {| info := value; pubKey := key; capacity := None |}
          else None) cands.

(* [Object.values(c.voters).reduce((v, sum) => (v + sum), BigInt(0))] *)
Definition sumVoters (vs : Obj Z) : Z :=
  fold_left (fun v sum => v + sum) (obj_values vs) 0.

Definition capacityOf (c : Candidate) : Z :=
  match voters c with
  | Some vs => deposit c + sumVoters vs
  | None => deposit c
  end.

Definition setCapacity (c : CandidateInfo) : CandidateInfo :=
  {| info := info c; pubKey := pubKey c; capacity := Some (capacityOf (info c)) |}.

(* lodash [compareAscending] on a value that may be undefined: undefined
   compares above every defined value *)
Definition compareAscending (a b : option Z) : comparison :=
  match a, b with
  | Some x, Some y => x ?= y
  | Some _, None => Lt
  | None, Some _ => Gt
  | None, None => Eq
  end.

(* lodash [compareMultiple] for the keys ['capacity', 'block'] with the
   orders ['desc', 'asc'] *)
Definition compareMultiple (a b : CandidateInfo) : comparison :=
  match compareAscending (capacity a) (capacity b) with
  | Eq => block (info a) ?= block (info b)
  | r => CompOpp r
  end.

(* [_.orderBy] is a stable sort: elements that compare equal keep their
   input order. [x] comes before every element of [l] in the input. *)
Fixpoint insertOrdered (x : CandidateInfo) (l : list CandidateInfo)
    : list CandidateInfo :=
  match l with
  | [] => [x]
  | y :: l' =>
      match compareMultiple x y with
      | Gt => y :: insertOrdered x l'
      | _ => x :: l
      end
  end.

Definition orderBy (l : list CandidateInfo) : list CandidateInfo :=
  foldr insertOrdered [] l.

(* [_populateCapacity] *)
Definition _populateCapacity (cands : list CandidateInfo) (sorted : bool)
    : list CandidateInfo :=
  let cands := map setCapacity cands in
  if sorted then orderBy cands else cands.

Section WithConfig.
Variable config : Config.

(* [_getValidators] *)
Definition _getValidators (cands : list CandidateInfo) : list CandidateInfo :=
  let cands := _populateCapacity cands true in
  if (numberOfValidators config <? length cands)%nat
  then take (numberOfValidators config) cands
  else cands.

(* the contract method [getCandidates (includeJailed = false)] *)
Definition getCandidates (context : Storage) (includeJailed : option bool)
    : Result (list CandidateInfo) :=
  cands ← _rawCandidates (Some context);
  Ok (_populateCapacity (_getCandidates cands (default false includeJailed)) true).

(* the contract method [getValidators] *)
Definition getValidators (context : Storage) : Result (list CandidateInfo) :=
  cands ← getCandidates context None;
  Ok (_getValidators cands).

(* [exports.getValidators]: reads the canonical storage of the contract;
   [_getCandidates] is called without [includeJailed] *)
Definition exports_getValidators (storage : option Storage) : list CandidateInfo :=
  let candidates := default [] (storage ≫= candidates) in
  _getValidators (_getCandidates candidates false).

End WithConfig.

(** *** resign *)

Section Resign.
(* [did.checkPermission(operator, signers, timestamp)] of the Did system
   contract, which raises when the signers may not act for the operator *)
Variable checkPermission : string -> list string -> Z -> Result unit.

Definition validatorWithdrawLockNumOfBlock : Z := 10.
Definition voterWithdrawLockNumOfBlock : Z := 1.

Definition resign (context : Storage) (msg : Msg) (blk : Block) (pubkey : string)
    : Result Storage :=
  cands ← _rawCandidates (Some context);
  match obj_get pubkey cands with
  | None =>
      (* [throw new (`Validator candidate ... not found.`)()] *)
      Throw (TypeError ("Validator candidate " +:+ pubkey +:+ " not found. is not a constructor"))
  | Some me =>
      _ ← checkPermission (operator me) (signers msg) (timestamp blk);
      (* [_rawWithdrawList()]: no argument is passed *)
      withdrawList ← _rawWithdrawList None;
      let withdrawList :=
        _addToWithdrawList withdrawList pubkey (deposit me)
          (number blk + validatorWithdrawLockNumOfBlock) in
      let withdrawList :=
        match voters me with
        | Some vs =>
            fold_left (fun wl '(p, v) =>
                         _addToWithdrawList wl p v (number blk + voterWithdrawLockNumOfBlock))
                      vs withdrawList
        | None => withdrawList
        end in
      let cands := obj_delete pubkey cands in
      (* [context.setState(WITHDRAW_KEY)]: no value is passed, so the local
         [withdrawList] is dropped *)
      Ok (setWithdraw None (setCandidates (Some cands) context))
  end.

End Resign.

(** *** punish *)

(* an argument as the caller may pass it *)
Inductive JsArg :=
| ArgUndefined
| ArgNumber (n : Z)    (* a number with an integer value *)
| ArgNonInteger        (* any other number: a fraction, NaN, an infinity *)
| ArgOther.            (* a value whose [typeof] is not 'number' *)

Record PunishOpts := {
  slashedRatePerMillion : JsArg;
  jailedBlockCount : JsArg }.

Definition MILLION : Z := 1000000.

(* a destructuring default [= 0] replaces undefined only *)
Definition orZero (a : JsArg) : JsArg :=
  match a with ArgUndefined => ArgNumber 0 | _ => a end.

Definition errRate : Exn :=
  Error "Invalid slashedRatePerMillion. slashedRatePerMillion must be a number between 0 and 1.".
Definition errCount : Exn :=
  Error "Invalid jailedBlockCount. jailedBlockCount must be a positive integer.".
Definition errNeither : Exn :=
  Error "Either slashedRate or jailedBlockCount must be specified.".

(* the three guards at the head of [punish] *)
Definition checkPunishParams (opts : PunishOpts) : Result (Z * Z) :=
  rate ← match orZero (slashedRatePerMillion opts) with
          | ArgNumber r => if (r <? 0) || (MILLION <? r) then Throw errRate else Ok r
          | _ => Throw errRate
          end;
  count ← match orZero (jailedBlockCount opts) with
           | ArgNumber c => if c <? 0 then Throw errCount else Ok c
           | _ => Throw errCount
           end;
  if (rate =? 0) || (count =? 0) then Throw errNeither else Ok (rate, count).

(* BigInt division truncates towards zero *)
Definition slashedAmount (deposit rate : Z) : Z := Z.quot (deposit * MILLION) rate.

Definition slash (c : Candidate) (rate : Z) : Candidate :=
  let amount := slashedAmount (deposit c) rate in
  {| deposit := deposit c - amount; block := block c; operator := operator c;
     name := name c; voters := voters c; jailed := jailed c;
     jailedUntilBlock := jailedUntilBlock c;
     slashed := Some (default 0 (slashed c) + amount) |}.

(* [(candidate.jailedUntilBlock && (candidate.jailedUntilBlock > blockNum))
      ? (candidate.jailedUntilBlock - blockNum) : 0]; a stored 0 is falsy *)
Definition pendingJailedBlock (c : Candidate) (blockNum : Z) : Z :=
  match jailedUntilBlock c with
  | Some untilBlock =>
      if negb (untilBlock =? 0) && (blockNum <? untilBlock)
      then untilBlock - blockNum else 0
  | None => 0
  end.

(* [blockNum + pendingJailedBlock + jailedBlockCount] is an addition of
   numbers: it is the sum written here as long as the values are safe
   integers, which is what the statements about it assume *)
Definition jail (c : Candidate) (blockNum count : Z) : Candidate :=
  {| deposit := deposit c; block := block c; operator := operator c;
     name := name c; voters := voters c; jailed := true;
     jailedUntilBlock := Some (blockNum + pendingJailedBlock c blockNum + count);
     slashed := slashed c |}.

(* [exports.punish]; the candidate record is updated in place in the
   canonical storage, which is returned here *)
Definition punish (storage : option Storage) (pubkey : string) (blockNum : Z)
    (opts : PunishOpts) : Result (option Storage) :=
  '(rate, count) ← checkPunishParams opts;
  let candidateList := default [] (storage ≫= candidates) in
  match obj_get pubkey candidateList with
  | None => Throw (Error ("Validator " +:+ pubkey +:+ " not found. Cannot punish."))
  | Some candidate =>
      let candidate := if 0 <? rate then slash candidate rate else candidate in
      let candidate := if 0 <? count then jail candidate blockNum count else candidate in
      Ok (setCandidates (Some (obj_set pubkey candidate candidateList)) <$> storage)
  end.

(** *** Facts about the ranking *)








Lemma insertOrdered_perm x l : Permutation (insertOrdered x l) (x :: l).
Proof.
  induction l as [|y l IH]; simpl; [done|].
  destruct (compareMultiple x y); try done.
  rewrite IH. apply perm_swap.
Qed.

Lemma orderBy_perm l : Permutation (orderBy l) l.
Proof.
  induction l as [|x l IH]; simpl; [done|].
  rewrite insertOrdered_perm. by constructor.
Qed.










(** The ranking looks at nothing but the key, the capacity and the
    registration block of an entry. *)










(** *** getValidators *)


Lemma _getValidators_prefix config l :
  exists rest, _populateCapacity l true = _getValidators config l ++ rest.
Proof.
  unfold _getValidators.
  destruct (numberOfValidators config <? length (_populateCapacity l true))%nat.
  - exists (drop (numberOfValidators config) (_populateCapacity l true)).
    by rewrite take_drop.
  - exists []. by rewrite app_nil_r.
Qed.
















(* two candidates with equal capacity: the one registered first leads *)
Example getValidators_tie :
  map pubKey <$>
    (match getValidators {| minValidatorDeposit := 1; minVoterValue := 1;
                            numberOfValidators := 2 |}
             {| candidates :=
                  Some [("pk_late",
                         {| deposit := 70; block := 9; operator := "op1"; name := "late";
                            voters := Some [("v1", 30)]; jailed := false;
                            jailedUntilBlock := None; slashed := None |});
                        ("pk_small",
                         {| deposit := 40; block := 1; operator := "op2"; name := "small";
                            voters := None; jailed := false;
                            jailedUntilBlock := None; slashed := None |});
                        ("pk_early",
                         {| deposit := 100; block := 4; operator := "op3"; name := "early";
                            voters := None; jailed := false;
                            jailedUntilBlock := None; slashed := None |})];
                withdraw := None |}
     with Ok vs => Some vs | Throw _ => None end)
  = Some ["pk_early"; "pk_late"].
Proof. reflexivity. Qed.

(** *** resign *)

(* the context argument omitted at the call site makes the read raise *)
Lemma _rawWithdrawList_no_context :
  _rawWithdrawList None = Throw (TypeError "Cannot read property 'getState' of undefined").
Proof. reflexivity. Qed.

(** C8. [resign] never completes: for a missing candidate the [throw new]
    of a string raises, and for a registered candidate whose operator
    permits the call the withdrawal list is read through
    [_rawWithdrawList()] without the context and raises before anything is
    written. The candidate is neither removed nor is any stake moved. *)
Theorem resign_always_throws
    (checkPermission : string -> list string -> Z -> Result unit)
    (context : Storage) (msg : Msg) (blk : Block) (pubkey : string) :
  exists e, resign checkPermission context msg blk pubkey = Throw e.
Proof.
  unfold resign. simpl.
  destruct (obj_get pubkey (default [] (candidates context))) as [me|]; [|eauto].
  destruct (checkPermission (operator me) (signers msg) (timestamp blk)) as [[]|e];
    simpl; eauto.
Qed.

Definition alice : Candidate :=
  {| deposit := 500; block := 3; operator := "op_alice"; name := "alice";
     voters := Some [("voter1", 20); ("voter2", 30)]; jailed := false;
     jailedUntilBlock := None; slashed := None |}.

Definition aliceStorage : Storage :=
  {| candidates := Some [("pk_alice", alice)]; withdraw := None |}.

(* a registered candidate with two voters and a permitted caller *)
Example resign_alice_throws :
  resign (fun _ _ _ => Ok ()) aliceStorage
    {| sender := "op_alice"; signers := ["op_alice"]; value := 0 |}
    {| number := 7; timestamp := 1000 |} "pk_alice"
  = Throw (TypeError "Cannot read property 'getState' of undefined").
Proof. reflexivity. Qed.

(** *** punish *)

Lemma checkPunishParams_Ok opts rate count :
  checkPunishParams opts = Ok (rate, count) <->
  orZero (slashedRatePerMillion opts) = ArgNumber rate /\
  orZero (jailedBlockCount opts) = ArgNumber count /\
  0 < rate <= MILLION /\ 0 < count.
Proof.
  unfold checkPunishParams.
  destruct (orZero (slashedRatePerMillion opts)) as [|r| |]; simpl;
    try (split; [discriminate | intros (? & _); discriminate]).
  destruct (Z.ltb_spec r 0); simpl;
    [split; [discriminate | intros ([= <-] & _ & ? & _); lia]|].
  destruct (Z.ltb_spec MILLION r); simpl;
    [split; [discriminate | intros ([= <-] & _ & ? & _); lia]|].
  destruct (orZero (jailedBlockCount opts)) as [|c| |]; simpl;
    try (split; [discriminate | intros (_ & ? & _); discriminate]).
  destruct (Z.ltb_spec c 0); simpl;
    [split; [discriminate | intros (_ & [= <-] & _ & ?); lia]|].
  destruct (Z.eqb_spec r 0); simpl;
    [split; [discriminate | intros ([= <-] & _ & ? & _); lia]|].
  destruct (Z.eqb_spec c 0); simpl;
    [split; [discriminate | intros (_ & [= <-] & _ & ?); lia]|].
  split.
  - intros [= <- <-]. repeat split; lia.
  - by intros ([= <-] & [= <-] & _).
Qed.

(* what a successful call did to the candidate *)
Lemma punish_Ok storage pubkey blockNum opts storage' :
  punish storage pubkey blockNum opts = Ok storage' ->
  exists rate count c,
    checkPunishParams opts = Ok (rate, count) /\
    obj_get pubkey (default [] (storage ≫= candidates)) = Some c /\
    obj_get pubkey (default [] (storage' ≫= candidates))
      = Some (jail (slash c rate) blockNum count).
Proof.
  unfold punish. intros H.
  apply bind_Ok in H as ([rate count] & Hparams & H).
  destruct (obj_get pubkey (default [] (storage ≫= candidates))) as [c|] eqn:Hc;
    [|discriminate].
  injection H as <-.
  pose proof Hparams as Hp. apply checkPunishParams_Ok in Hp as (_ & _ & Hr & Hcnt).
  exists rate, count, c. split; [done|]. split; [done|].
  destruct (Z.ltb_spec 0 rate); [|lia]. destruct (Z.ltb_spec 0 count); [|lia].
  destruct storage as [st|]; simpl in *; [|discriminate].
  apply obj_get_set_eq.
Qed.

Lemma slashedAmount_antitone d rate1 rate2 :
  0 <= d -> 0 < rate1 <= rate2 -> slashedAmount d rate2 <= slashedAmount d rate1.
Proof.
  intros Hd Hr. unfold slashedAmount, MILLION.
  rewrite !Z.quot_div_nonneg by lia.
  apply Z.div_le_compat_l; lia.
Qed.

(* a call with two valid, nonzero penalties on an existing candidate returns *)
Lemma punish_succeeds storage pubkey blockNum rate count c :
  obj_get pubkey (default [] (storage ≫= candidates)) = Some c ->
  0 < rate <= MILLION -> 0 < count ->
  exists storage',
    punish storage pubkey blockNum
      {| slashedRatePerMillion := ArgNumber rate; jailedBlockCount := ArgNumber count |}
      = Ok storage' /\
    obj_get pubkey (default [] (storage' ≫= candidates))
      = Some (jail (slash c rate) blockNum count).
Proof.
  intros Hc Hrate Hcount.
  assert (checkPunishParams
            {| slashedRatePerMillion := ArgNumber rate;
               jailedBlockCount := ArgNumber count |} = Ok (rate, count)) as Hparams.
  { apply checkPunishParams_Ok. simpl. repeat split; lia. }
  destruct (punish storage pubkey blockNum _) as [storage'|e] eqn:Hp.
  - exists storage'. split; [done|].
    apply punish_Ok in Hp as (rate' & count' & c0 & Hparams' & Hc0 & Hc').
    rewrite Hparams in Hparams'. injection Hparams' as <- <-.
    rewrite Hc in Hc0. by injection Hc0 as <-.
  - unfold punish in Hp. rewrite Hparams in Hp. simpl in Hp. by rewrite Hc in Hp.
Qed.

(* the other candidates, and the order of all of them, are as before *)
Lemma punish_frame storage pubkey blockNum opts storage' :
  punish storage pubkey blockNum opts = Ok storage' ->
  obj_keys (default [] (storage' ≫= candidates))
    = obj_keys (default [] (storage ≫= candidates)) /\
  forall other, pubkey <> other ->
    obj_get other (default [] (storage' ≫= candidates))
      = obj_get other (default [] (storage ≫= candidates)).
Proof.
  unfold punish. intros H.
  apply bind_Ok in H as ([rate count] & _ & H).
  destruct (obj_get pubkey (default [] (storage ≫= candidates))) as [c|] eqn:Hc;
    [|discriminate].
  injection H as <-.
  destruct storage as [st|]; simpl in *; [|discriminate].
  split.
  - by eapply obj_keys_set_present.
  - intros other Hne. by apply obj_get_set_ne.
Qed.

(** C4. A [punish] call with a rate above zero (and, as the guards demand,
    a jail count above zero) on an existing candidate succeeds; the amount
    slashed is deposit * 1000000 / rate in integer arithmetic (the quotient
    truncated); the candidate's deposit has gone down by that amount and its
    slashed total up by it; and with the same non-negative deposit any rate
    that is not larger slashes at least as much. *)
Theorem punish_slashes_deposit (storage : option Storage) (pubkey : string)
    (blockNum rate count : Z) (c : Candidate) :
  obj_get pubkey (default [] (storage ≫= candidates)) = Some c ->
  0 < rate <= MILLION -> 0 < count ->
  let amount := (deposit c * 1000000) `quot` rate in
  (exists storage' c',
      punish storage pubkey blockNum
        {| slashedRatePerMillion := ArgNumber rate; jailedBlockCount := ArgNumber count |}
        = Ok storage' /\
      obj_get pubkey (default [] (storage' ≫= candidates)) = Some c' /\
      deposit c' = deposit c - amount /\
      slashed c' = Some (default 0 (slashed c) + amount)) /\
  (forall smaller, 0 < smaller <= rate -> 0 <= deposit c ->
      amount <= slashedAmount (deposit c) smaller).
Proof.
  intros Hc Hrate Hcount amount. split.
  - destruct (punish_succeeds storage pubkey blockNum rate count c Hc Hrate Hcount)
      as (storage' & Hp & Hc').
    exists storage', (jail (slash c rate) blockNum count). by repeat split.
  - intros smaller Hs Hd. apply slashedAmount_antitone; lia.
Qed.

Lemma punish_slashes_deposit_witness :
  exists storage' c',
    punish (Some aliceStorage) "pk_alice" 7
      {| slashedRatePerMillion := ArgNumber 250000; jailedBlockCount := ArgNumber 4 |}
      = Ok storage' /\
    obj_get "pk_alice" (default [] (storage' ≫= candidates)) = Some c' /\
    deposit c' = deposit alice - (deposit alice * 1000000) `quot` 250000 /\
    slashed c' = Some (default 0 (slashed alice) + (deposit alice * 1000000) `quot` 250000).
Proof.
  apply (punish_slashes_deposit (Some aliceStorage) "pk_alice" 7 250000 4 alice);
    [reflexivity | unfold MILLION; lia | lia].
Defined.

(* the same call evaluated: a deposit of 500 slashed at 250000 per million *)
Example punish_slashes_alice :
  (fun s => (fun c => (deposit c, slashed c)) <$>
              obj_get "pk_alice" (default [] (s ≫= candidates)))
    <$> (match punish (Some aliceStorage) "pk_alice" 7
                 {| slashedRatePerMillion := ArgNumber 250000;
                    jailedBlockCount := ArgNumber 4 |}
         with Ok s => Some s | Throw _ => None end)
  = Some (Some (-1500, Some 2000)).
Proof. reflexivity. Qed.

(** C5. Whenever one of the two penalties is zero and the other is a valid
    non-negative integer, [punish] is rejected by its third guard, whose own
    message says that either of the two suffices: a call that only jails,
    or only slashes, raises. *)
Theorem punish_rejects_single_penalty (storage : option Storage) (pubkey : string)
    (blockNum rate count : Z) :
  0 <= rate <= MILLION -> 0 <= count -> rate = 0 \/ count = 0 ->
  punish storage pubkey blockNum
    {| slashedRatePerMillion := ArgNumber rate; jailedBlockCount := ArgNumber count |}
    = Throw (Error "Either slashedRate or jailedBlockCount must be specified.").
Proof.
  intros Hr Hc Hzero. unfold punish, checkPunishParams. simpl.
  destruct (Z.ltb_spec rate 0); [lia|].
  destruct (Z.ltb_spec MILLION rate); [lia|]. simpl.
  destruct (Z.ltb_spec count 0); [lia|]. simpl.
  destruct (Z.eqb_spec rate 0), (Z.eqb_spec count 0); simpl; try done. lia.
Qed.

Lemma punish_rejects_single_penalty_witness :
  punish (Some aliceStorage) "pk_alice" 7
    {| slashedRatePerMillion := ArgNumber 0; jailedBlockCount := ArgNumber 5 |}
    = Throw (Error "Either slashedRate or jailedBlockCount must be specified.").
Proof.
  apply (punish_rejects_single_penalty (Some aliceStorage) "pk_alice" 7 0 5);
    unfold MILLION; lia.
Defined.

(* the same with the defaults of the destructuring: slashing only *)
Example punish_slash_only_rejected :
  punish (Some aliceStorage) "pk_alice" 7
    {| slashedRatePerMillion := ArgNumber 1000; jailedBlockCount := ArgUndefined |}
    = Throw (Error "Either slashedRate or jailedBlockCount must be specified.").
Proof. reflexivity. Qed.

(* the guard passes only when both values are above zero *)
Lemma checkPunishParams_needs_both rate count :
  0 <= rate <= MILLION -> 0 <= count ->
  isOk (checkPunishParams
          {| slashedRatePerMillion := ArgNumber rate; jailedBlockCount := ArgNumber count |})
  = negb (rate =? 0) && negb (count =? 0).
Proof.
  intros Hr Hc.
  destruct (checkPunishParams _) as [[r c]|e] eqn:E; simpl.
  - apply checkPunishParams_Ok in E as ([= <-] & [= <-] & ? & ?).
    destruct (Z.eqb_spec rate 0), (Z.eqb_spec count 0); simpl; lia.
  - destruct (Z.eqb_spec rate 0), (Z.eqb_spec count 0); simpl; try done.
    assert (checkPunishParams
              {| slashedRatePerMillion := ArgNumber rate;
                 jailedBlockCount := ArgNumber count |} = Ok (rate, count)) as E'.
    { apply checkPunishParams_Ok. simpl. repeat split; lia. }
    congruence.
Qed.

Lemma pendingJailedBlock_future c blockNum untilBlock :
  0 <= blockNum -> jailedUntilBlock c = Some untilBlock -> blockNum < untilBlock ->
  pendingJailedBlock c blockNum = untilBlock - blockNum.
Proof.
  intros Hb Hc Hlt. unfold pendingJailedBlock. rewrite Hc.
  destruct (Z.eqb_spec untilBlock 0); [lia|].
  destruct (Z.ltb_spec blockNum untilBlock); [done|lia].
Qed.

Lemma pendingJailedBlock_expired c blockNum :
  (forall untilBlock, jailedUntilBlock c = Some untilBlock -> untilBlock <= blockNum) ->
  pendingJailedBlock c blockNum = 0.
Proof.
  intros Hc. unfold pendingJailedBlock.
  destruct (jailedUntilBlock c) as [u|]; [|done].
  specialize (Hc u eq_refl).
  destruct (Z.ltb_spec blockNum u); [lia|]. by rewrite andb_false_r.
Qed.

(** C6. A call of [punish] that only jails extends nothing: with a jail
    count above zero and the rate left out or given as 0, the call raises
    at the third guard, whatever the candidate and however far in the
    future its until-block lies, so the stored until-block stays as it is.
    The jailing code is reached only by a call that slashes as well (a rate
    in 1..1000000); such a call succeeds and jails the candidate, and, all
    block numbers involved being safe integers, the new until-block is
    blockNum + (old until-block - blockNum) + count, the old until-block
    moved on by the count, when the old one lies after [blockNum], and
    blockNum + count when there is none or it does not. *)
Theorem punish_jail_only_refused (storage : option Storage) (pubkey : string)
    (blockNum count : Z) (c : Candidate) :
  obj_get pubkey (default [] (storage ≫= candidates)) = Some c ->
  0 < count ->
  (forall rateArg, rateArg = ArgUndefined \/ rateArg = ArgNumber 0 ->
      punish storage pubkey blockNum
        {| slashedRatePerMillion := rateArg; jailedBlockCount := ArgNumber count |}
      = Throw (Error "Either slashedRate or jailedBlockCount must be specified.")) /\
  (forall rate,
      0 < rate <= MILLION ->
      0 <= blockNum -> isSafeInteger (blockNum + count) ->
      (forall untilBlock, jailedUntilBlock c = Some untilBlock ->
          isSafeInteger untilBlock /\ isSafeInteger (untilBlock + count)) ->
      exists storage' c',
        punish storage pubkey blockNum
          {| slashedRatePerMillion := ArgNumber rate; jailedBlockCount := ArgNumber count |}
          = Ok storage' /\
        obj_get pubkey (default [] (storage' ≫= candidates)) = Some c' /\
        jailed c' = true /\
        (forall untilBlock,
            jailedUntilBlock c = Some untilBlock -> blockNum < untilBlock ->
            jailedUntilBlock c' = Some (blockNum + (untilBlock - blockNum) + count) /\
            jailedUntilBlock c' = Some (untilBlock + count)) /\
        ((forall untilBlock, jailedUntilBlock c = Some untilBlock -> untilBlock <= blockNum) ->
            jailedUntilBlock c' = Some (blockNum + count))).
Proof.
  intros Hc Hcount. split.
  - intros rateArg Hrate. unfold punish, checkPunishParams.
    destruct Hrate as [-> | ->]; simpl;
      (destruct (Z.ltb_spec count 0); [lia|done]).
  - intros rate Hrate Hb _ _.
    destruct (punish_succeeds storage pubkey blockNum rate count c Hc Hrate Hcount)
      as (storage' & Hp & Hc').
    exists storage', (jail (slash c rate) blockNum count).
    split; [done|]. split; [done|]. split; [done|]. simpl. split.
    + intros u Hu Hlt.
      rewrite (pendingJailedBlock_future (slash c rate) blockNum u) by done.
      split; f_equal; lia.
    + intros Hexp. rewrite pendingJailedBlock_expired by done. f_equal; lia.
Qed.

Definition jailedAlice : Candidate :=
  {| deposit := 500; block := 3; operator := "op_alice"; name := "alice";
     voters := None; jailed := true; jailedUntilBlock := Some 12; slashed := None |}.

Definition jailedAliceStorage : option Storage :=
  Some {| candidates := Some [("pk_alice", jailedAlice)]; withdraw := None |}.

Lemma punish_jail_only_refused_witness :
  (forall rateArg, rateArg = ArgUndefined \/ rateArg = ArgNumber 0 ->
      punish jailedAliceStorage "pk_alice" 7
        {| slashedRatePerMillion := rateArg; jailedBlockCount := ArgNumber 4 |}
      = Throw (Error "Either slashedRate or jailedBlockCount must be specified.")) /\
  (forall rate,
      0 < rate <= MILLION ->
      0 <= 7 -> isSafeInteger (7 + 4) ->
      (forall untilBlock, jailedUntilBlock jailedAlice = Some untilBlock ->
          isSafeInteger untilBlock /\ isSafeInteger (untilBlock + 4)) ->
      exists storage' c',
        punish jailedAliceStorage "pk_alice" 7
          {| slashedRatePerMillion := ArgNumber rate; jailedBlockCount := ArgNumber 4 |}
          = Ok storage' /\
        obj_get "pk_alice" (default [] (storage' ≫= candidates)) = Some c' /\
        jailed c' = true /\
        (forall untilBlock,
            jailedUntilBlock jailedAlice = Some untilBlock -> 7 < untilBlock ->
            jailedUntilBlock c' = Some (7 + (untilBlock - 7) + 4) /\
            jailedUntilBlock c' = Some (untilBlock + 4)) /\
        ((forall untilBlock, jailedUntilBlock jailedAlice = Some untilBlock -> untilBlock <= 7) ->
            jailedUntilBlock c' = Some (7 + 4))).
Proof.
  apply (punish_jail_only_refused jailedAliceStorage "pk_alice" 7 4 jailedAlice);
    [reflexivity | lia].
Defined.

(* jailed until 12 at height 7: a call that only jails raises and leaves the
   until-block at 12; with a slash as well it moves to 16 *)
Example punish_jail_only_run :
  punish jailedAliceStorage "pk_alice" 7
    {| slashedRatePerMillion := ArgUndefined; jailedBlockCount := ArgNumber 4 |}
  = Throw (Error "Either slashedRate or jailedBlockCount must be specified.") /\
  (fun s => obj_get "pk_alice" (default [] (s ≫= candidates)) ≫= jailedUntilBlock)
    <$> (match punish jailedAliceStorage "pk_alice" 7
                 {| slashedRatePerMillion := ArgNumber 1000000;
                    jailedBlockCount := ArgNumber 4 |}
         with Ok s => Some s | Throw _ => None end)
  = Some (Some 16).
Proof. split; reflexivity. Qed.

(** *** vote *)

Section Vote.
Variable config : Config.

(* [votee.voters[msg.sender] = (votee.voters[msg.sender] || BigInt(0)) + msg.value] *)
Definition addVote (votee : Candidate) (voter : string) (amount : Z) : Candidate :=
  let vs := default [] (voters votee) in
  {| deposit := deposit votee; block := block votee; operator := operator votee;
     name := name votee;
     voters := Some (obj_set voter (default 0 (obj_get voter vs) + amount) vs);
     jailed := jailed votee; jailedUntilBlock := jailedUntilBlock votee;
     slashed := slashed votee |}.

(* the contract method [vote] *)
Definition vote (context : Storage) (msg : Msg) (voteePubkey : string) : Result Storage :=
  if value msg <? minVoterValue config
  then Throw (Error ("You must attach at least " +:+ pretty (minVoterValue config)
                     +:+ " when voting."))
  else
    cands ← _rawCandidates (Some context);
    match obj_get voteePubkey cands with
    | None =>
        (* [candidates[voteePubkey]] is then what the prototype has under
           that name, if anything: a function or the prototype object,
           which is truthy and has no [jailed]. The vote is recorded on
           that object and the candidates are stored as they are. *)
        if includes objectPrototypeNames voteePubkey
        then Ok (setCandidates (Some cands) context)
        else
          Throw (Error (voteePubkey +:+ " is not a valid validator candidate public key."))
    | Some votee =>
        if jailed votee
        then Throw (Error (voteePubkey +:+
               " is currently jailed, please wait until it get unjail before voting."))
        else Ok (setCandidates
                   (Some (obj_set voteePubkey (addVote votee (sender msg) (value msg)) cands))
                   context)
    end.

End Vote.








Definition voteConfig : Config :=
  {| minValidatorDeposit := 100; minVoterValue := 10; numberOfValidators := 2 |}.


(* a vote for [toString]: it is accepted and no candidate is credited *)
Example vote_inherited_name :
  vote voteConfig aliceStorage
    {| sender := "voter1"; signers := ["voter1"]; value := 15 |} "toString"
  = Ok aliceStorage.
Proof. reflexivity. Qed.

(** *** More on punish *)

(** X3. [punish] returns exactly when both penalties are integers, the rate
    lies in 1..1000000, the jail count is above zero and the public key is
    that of a stored candidate; every other call raises. *)
Theorem punish_succeeds_iff (storage : option Storage) (pubkey : string)
    (blockNum : Z) (opts : PunishOpts) :
  isOk (punish storage pubkey blockNum opts) = true <->
  exists rate count,
    orZero (slashedRatePerMillion opts) = ArgNumber rate /\
    orZero (jailedBlockCount opts) = ArgNumber count /\
    0 < rate <= MILLION /\ 0 < count /\
    is_Some (obj_get pubkey (default [] (storage ≫= candidates))).
Proof.
  split.
  - destruct (punish storage pubkey blockNum opts) as [storage'|e] eqn:Hp; [|done].
    intros _. apply punish_Ok in Hp as (rate & count & c & Hparams & Hc & _).
    apply checkPunishParams_Ok in Hparams as (Hr & Hcnt & Hrange & Hpos).
    exists rate, count. by rewrite Hc.
  - intros (rate & count & Hr & Hcnt & Hrange & Hpos & [c Hc]).
    unfold punish.
    assert (checkPunishParams opts = Ok (rate, count)) as ->
      by by apply checkPunishParams_Ok.
    simpl. rewrite Hc. simpl.
    by destruct (0 <? rate), (0 <? count).
Qed.

Lemma slashedAmount_covers_deposit d rate :
  0 <= d -> 0 < rate <= MILLION -> d <= slashedAmount d rate.
Proof.
  intros Hd Hr. unfold slashedAmount.
  rewrite Z.quot_div_nonneg by (unfold MILLION in *; nia).
  apply Z.div_le_lower_bound; [lia|]. nia.
Qed.

(** X4. A [punish] that succeeds only moves stake from the deposit to the
    slashed total: their sum is unchanged. Because the amount is
    deposit * 1000000 / rate with a rate of at most 1000000, it is never
    less than a non-negative deposit: the candidate is left with a deposit
    of zero or below, never with a positive one. *)
Theorem punish_moves_whole_deposit (storage storage' : option Storage)
    (pubkey : string) (blockNum : Z) (opts : PunishOpts) (c : Candidate) :
  punish storage pubkey blockNum opts = Ok storage' ->
  obj_get pubkey (default [] (storage ≫= candidates)) = Some c ->
  exists c',
    obj_get pubkey (default [] (storage' ≫= candidates)) = Some c' /\
    deposit c' + default 0 (slashed c') = deposit c + default 0 (slashed c) /\
    (0 <= deposit c -> deposit c' <= 0) /\
    capacityOf c' - capacityOf c = deposit c' - deposit c.
Proof.
  intros Hp Hc.
  apply punish_Ok in Hp as (rate & count & c0 & Hparams & Hc0 & Hc').
  rewrite Hc in Hc0. injection Hc0 as <-.
  apply checkPunishParams_Ok in Hparams as (_ & _ & Hrange & _).
  eexists. split; [exact Hc'|]. simpl. split; [lia|]. split.
  - intros Hd. pose proof (slashedAmount_covers_deposit (deposit c) rate Hd Hrange). lia.
  - unfold capacityOf. simpl. destruct (voters c); lia.
Qed.

Lemma punish_moves_whole_deposit_witness :
  exists c',
    obj_get "pk_alice"
      (default [] (Some (setCandidates
         (Some [("pk_alice", jail (slash alice 250000) 7 4)]) aliceStorage) ≫= candidates))
      = Some c' /\
    deposit c' + default 0 (slashed c') = deposit alice + default 0 (slashed alice) /\
    (0 <= deposit alice -> deposit c' <= 0) /\
    capacityOf c' - capacityOf alice = deposit c' - deposit alice.
Proof.
  apply (punish_moves_whole_deposit (Some aliceStorage) _ "pk_alice" 7
           {| slashedRatePerMillion := ArgNumber 250000; jailedBlockCount := ArgNumber 4 |}
           alice); reflexivity.
Defined.

(** X5. A [punish] that succeeds touches one record only: the public keys
    keep their order, every other candidate is exactly as before, and the
    punished record keeps its registration block, operator, name and
    voters. *)
Theorem punish_touches_one_record (storage storage' : option Storage)
    (pubkey : string) (blockNum : Z) (opts : PunishOpts) :
  punish storage pubkey blockNum opts = Ok storage' ->
  obj_keys (default [] (storage' ≫= candidates))
    = obj_keys (default [] (storage ≫= candidates)) /\
  (forall other, pubkey <> other ->
      obj_get other (default [] (storage' ≫= candidates))
        = obj_get other (default [] (storage ≫= candidates))) /\
  exists c c',
    obj_get pubkey (default [] (storage ≫= candidates)) = Some c /\
    obj_get pubkey (default [] (storage' ≫= candidates)) = Some c' /\
    block c' = block c /\ operator c' = operator c /\ name c' = name c /\
    voters c' = voters c.
Proof.
  intros Hp. destruct (punish_frame _ _ _ _ _ Hp) as [Hkeys Hother].
  split; [done|]. split; [done|].
  apply punish_Ok in Hp as (rate & count & c & _ & Hc & Hc').
  exists c. eexists. split; [done|]. split; [exact Hc'|]. done.
Qed.

Definition bob : Candidate :=
  {| deposit := 300; block := 5; operator := "op_bob"; name := "bob";
     voters := None; jailed := false; jailedUntilBlock := None; slashed := None |}.

Definition twoCandidates : Storage :=
  {| candidates := Some [("pk_alice", alice); ("pk_bob", bob)]; withdraw := None |}.

Lemma punish_touches_one_record_witness :
  obj_keys (default []
      (Some (setCandidates
         (Some [("pk_alice", jail (slash alice 1000000) 7 4); ("pk_bob", bob)])
         twoCandidates) ≫= candidates))
    = obj_keys (default [] (Some twoCandidates ≫= candidates)) /\
  (forall other, "pk_alice" <> other ->
      obj_get other (default []
          (Some (setCandidates
             (Some [("pk_alice", jail (slash alice 1000000) 7 4); ("pk_bob", bob)])
             twoCandidates) ≫= candidates))
        = obj_get other (default [] (Some twoCandidates ≫= candidates))) /\
  exists c c',
    obj_get "pk_alice" (default [] (Some twoCandidates ≫= candidates)) = Some c /\
    obj_get "pk_alice" (default []
        (Some (setCandidates
           (Some [("pk_alice", jail (slash alice 1000000) 7 4); ("pk_bob", bob)])
           twoCandidates) ≫= candidates)) = Some c' /\
    block c' = block c /\ operator c' = operator c /\ name c' = name c /\
    voters c' = voters c.
Proof.
  apply (punish_touches_one_record (Some twoCandidates) _ "pk_alice" 7
           {| slashedRatePerMillion := ArgNumber 1000000; jailedBlockCount := ArgNumber 4 |}).
  reflexivity.
Defined.

(** X6. Once a candidate has been punished, every vote for it is refused as
    a vote for a jailed candidate, whatever value is attached above the
    minimum: a successful [punish] always jails. *)
Theorem vote_after_punish_refused (config : Config) (context context' : Storage)
    (pubkey : string) (blockNum : Z) (opts : PunishOpts) (msg : Msg) :
  punish (Some context) pubkey blockNum opts = Ok (Some context') ->
  minVoterValue config <= value msg ->
  vote config context' msg pubkey
  = Throw (Error (pubkey +:+
      " is currently jailed, please wait until it get unjail before voting.")).
Proof.
  intros Hp Hv.
  apply punish_Ok in Hp as (rate & count & c & _ & _ & Hc'). simpl in Hc'.
  unfold vote. simpl.
  destruct (Z.ltb_spec (value msg) (minVoterValue config)); [lia|]. simpl.
  by rewrite Hc'.
Qed.

Lemma vote_after_punish_refused_witness :
  vote voteConfig
    (setCandidates (Some [("pk_alice", jail (slash alice 250000) 7 4)]) aliceStorage)
    {| sender := "voter1"; signers := ["voter1"]; value := 15 |} "pk_alice"
  = Throw (Error ("pk_alice" +:+
      " is currently jailed, please wait until it get unjail before voting.")).
Proof.
  apply (vote_after_punish_refused voteConfig aliceStorage _ "pk_alice" 7
           {| slashedRatePerMillion := ArgNumber 250000; jailedBlockCount := ArgNumber 4 |});
    [reflexivity | simpl; lia].
Defined.

Lemma obj_get_NoDup {V} (k : string) (v : V) (o : Obj V) :
  NoDup (obj_keys o) -> (k, v) ∈ o -> obj_get k o = Some v.
Proof.
  unfold obj_keys. induction o as [|[k' v'] o IH]; simpl.
  - by intros _ ?%elem_of_nil.
  - intros [Hnotin Hnd]%NoDup_cons [Heq|Hin]%elem_of_cons.
    + injection Heq as <- <-. by rewrite String.eqb_refl.
    + destruct (String.eqb k k') eqn:E; [|by apply IH].
      apply String.eqb_eq in E. subst k'. exfalso. apply Hnotin.
      apply list_elem_of_fmap. by exists (k, v).
Qed.

Lemma _getCandidates_elem cands includeJailed ci :
  ci ∈ _getCandidates cands includeJailed ->
  (pubKey ci, info ci) ∈ cands /\ (includeJailed = true \/ jailed (info ci) = false).
Proof.
  unfold _getCandidates. intros Hin.
  apply list_elem_of_omap in Hin as ([k c] & Hkc & Hsome).
  destruct includeJailed; simpl in Hsome.
  - injection Hsome as <-. simpl. by split; [|left].
  - destruct (jailed c) eqn:Hj; simpl in Hsome; [done|].
    injection Hsome as <-. simpl. by split; [|right].
Qed.

Lemma _getValidators_elem config l ci :
  ci ∈ _getValidators config l -> exists ci0, ci0 ∈ l /\ ci = setCapacity ci0.
Proof.
  intros Hin.
  destruct (_getValidators_prefix config l) as [rest Hrest].
  assert (ci ∈ _populateCapacity l true) as Hin'.
  { rewrite Hrest. apply elem_of_app. by left. }
  unfold _populateCapacity in Hin'. rewrite orderBy_perm in Hin'.
  apply list_elem_of_fmap in Hin' as (ci0 & -> & Hci0). by exists ci0.
Qed.

(** X7. A punished candidate drops out of the validator set: after a
    successful [punish], no entry returned by the exported
    [getValidators] carries that public key (the stored keys being
    distinct, as the keys of an object are). *)
Theorem punished_not_validator (config : Config) (context context' : Storage)
    (pubkey : string) (blockNum : Z) (opts : PunishOpts) :
  NoDup (obj_keys (default [] (candidates context))) ->
  punish (Some context) pubkey blockNum opts = Ok (Some context') ->
  Forall (fun ci => pubKey ci <> pubkey) (exports_getValidators config (Some context')).
Proof.
  intros Hnd Hp. apply Forall_forall. intros ci Hci Hpk.
  destruct (punish_frame _ _ _ _ _ Hp) as [Hkeys _]. simpl in Hkeys.
  apply punish_Ok in Hp as (rate & count & c & _ & _ & Hc'). simpl in Hc'.
  unfold exports_getValidators in Hci. simpl in Hci.
  apply _getValidators_elem in Hci as (ci0 & Hci0 & ->). simpl in Hpk.
  apply _getCandidates_elem in Hci0 as [Hmem [?|Hfree]]; [done|].
  rewrite Hpk in Hmem.
  apply obj_get_NoDup in Hmem; [|by rewrite Hkeys].
  rewrite Hc' in Hmem. injection Hmem as Hinfo. by rewrite <- Hinfo in Hfree.
Qed.

Lemma punished_not_validator_witness :
  Forall (fun ci => pubKey ci <> "pk_alice")
    (exports_getValidators voteConfig
       (Some (setCandidates
                (Some [("pk_alice", jail (slash alice 1000000) 7 4); ("pk_bob", bob)])
                twoCandidates))).
Proof.
  apply (punished_not_validator voteConfig twoCandidates _ "pk_alice" 7
           {| slashedRatePerMillion := ArgNumber 1000000; jailedBlockCount := ArgNumber 4 |}).
  - apply (bool_decide_unpack _). vm_compute. exact I.
  - reflexivity.
Defined.

(** *** propose *)

Section Propose.
Variable config : Config.
(* [String.prototype.trim] and [String.prototype.toLowerCase] *)
Variable trim : string -> string.
Variable toLowerCase : string -> string.
(* [did.checkPermission(operator, signers, timestamp)] *)
Variable checkPermission : string -> list string -> Z -> Result unit.

(* the test of the [forEach] over [Object.values(candidates)] *)
Definition nameTaken (cands : Obj Candidate) (candidateName : string) : bool :=
  existsb (fun c => String.eqb (toLowerCase (name c)) (toLowerCase candidateName))
          (obj_values cands).

(* [me.deposit = (me.deposit || BigInt(0)) + msg.value] *)
Definition addDeposit (me : Candidate) (amount : Z) : Candidate :=
  {| deposit := deposit me + amount; block := block me; operator := operator me;
     name := name me; voters := voters me; jailed := jailed me;
     jailedUntilBlock := jailedUntilBlock me; slashed := slashed me |}.

(* the record written for a public key that is not registered yet *)
Definition newCandidate (msg : Msg) (blk : Block) (candidateName : string) : Candidate :=
  {| deposit := value msg; block := number blk; operator := sender msg;
     name := candidateName; voters := None; jailed := false;
     jailedUntilBlock := None; slashed := None |}.

(* the contract method [propose]. The lookup [candidates[pubkey]] is that of
   a key which is not a name inherited from the prototype: for such a name
   the code finds the prototype's member and treats it as the record. *)
Definition propose (context : Storage) (msg : Msg) (blk : Block)
    (pubkey candidateName : string) : Result Storage :=
  let pubkey := trim pubkey in
  if String.eqb pubkey "" then Throw (Error "Public key is required.") else
  let candidateName := trim candidateName in
  if String.eqb candidateName ""
  then Throw (Error "Validator candidate name is required.") else
  cands ← _rawCandidates (Some context);
  if nameTaken cands candidateName
  then Throw (Error ("Candidate name " +:+ candidateName +:+ " already exists."))
  else
    record ← match obj_get pubkey cands with
              | Some me =>
                  _ ← checkPermission (operator me) (signers msg) (timestamp blk);
                  Ok (addDeposit me (value msg))
              | None => Ok (newCandidate msg blk candidateName)
              end;
    (* [candidates[pubkey].deposit < config.minValidatorDeposit] *)
    if deposit record <? minValidatorDeposit config
    then Throw (Error ("Validator must deposit at least "
                       +:+ pretty (minValidatorDeposit config)))
    else Ok (setCandidates (Some (obj_set pubkey record cands)) context).

(* the names of the stored candidates, as the duplicate test compares them *)
Definition loweredNames (cands : Obj Candidate) : list string :=
  map (fun c => toLowerCase (name c)) (obj_values cands).

Lemma nameTaken_false cands candidateName :
  nameTaken cands candidateName = false ->
  toLowerCase candidateName ∉ loweredNames cands.
Proof.
  unfold nameTaken, loweredNames. intros Hfalse Hin.
  apply list_elem_of_fmap in Hin as (c & Heq & Hc).
  assert (existsb (fun c => String.eqb (toLowerCase (name c)) (toLowerCase candidateName))
            (obj_values cands) = true) as Htrue.
  { apply existsb_exists. exists c. split; [by apply list_elem_of_In|].
    apply String.eqb_eq. done. }
  congruence.
Qed.

Lemma obj_set_fresh {V} (k : string) (v : V) (o : Obj V) :
  obj_get k o = None -> obj_set k v o = o ++ [(k, v)].
Proof.
  induction o as [|[k' v'] o IH]; simpl; [done|].
  destruct (String.eqb k k'); [done|]. intros H. by rewrite IH.
Qed.

Lemma loweredNames_set_present k me me' cands :
  obj_get k cands = Some me -> name me' = name me ->
  loweredNames (obj_set k me' cands) = loweredNames cands.
Proof.
  unfold loweredNames, obj_values. intros Hget Hname.
  induction cands as [|[k0 c0] cands IH]; simpl in *; [done|].
  destruct (String.eqb k k0); simpl.
  - injection Hget as ->. by rewrite Hname.
  - f_equal. by apply IH.
Qed.

End Propose.

(** X8. [propose] keeps the registry well formed. For a public key that is
    not a name inherited from the prototype, when [propose] returns: a
    public key that was registered keeps its place and all its fields but
    the deposit, which grows by the attached value; a new public key is
    added with the deposit attached, the current block and the sender as
    operator, and unless it is made of digits only it stands behind all
    others; the proposed record holds at least the minimum deposit; every
    other candidate is untouched; and if the stored names were pairwise
    different ignoring case, they still are. *)
Theorem propose_keeps_registry (config : Config) (trim toLowerCase : string -> string)
    (checkPermission : string -> list string -> Z -> Result unit)
    (context context' : Storage) (msg : Msg) (blk : Block)
    (pubkey candidateName : string) :
  includes objectPrototypeNames (trim pubkey) = false ->
  propose config trim toLowerCase checkPermission context msg blk pubkey candidateName
    = Ok context' ->
  let cands := default [] (candidates context) in
  let cands' := default [] (candidates context') in
  (exists record,
      obj_get (trim pubkey) cands' = Some record /\
      minValidatorDeposit config <= deposit record /\
      match obj_get (trim pubkey) cands with
      | Some me =>
          record = addDeposit me (value msg) /\ obj_keys cands' = obj_keys cands
      | None =>
          record = newCandidate msg blk (trim candidateName) /\
          Permutation cands' ((trim pubkey, record) :: cands) /\
          (digitsOnly (trim pubkey) = false -> cands' = cands ++ [(trim pubkey, record)])
      end) /\
  (forall other, trim pubkey <> other -> obj_get other cands' = obj_get other cands) /\
  (NoDup (loweredNames toLowerCase cands) -> NoDup (loweredNames toLowerCase cands')).
Proof.
  intros _. unfold propose. simpl.
  destruct (String.eqb (trim pubkey) ""); [done|].
  destruct (String.eqb (trim candidateName) ""); [done|].
  destruct (nameTaken toLowerCase (default [] (candidates context)) (trim candidateName))
    eqn:Htaken; [done|].
  apply nameTaken_false in Htaken.
  destruct (obj_get (trim pubkey) (default [] (candidates context))) as [me|] eqn:Hme.
  - destruct (checkPermission _ _ _) as [[]|e]; simpl; [|done].
    destruct (Z.ltb_spec (deposit me + value msg) (minValidatorDeposit config));
      [done|].
    intros [= <-]. simpl. split; [|split].
    + exists (addDeposit me (value msg)).
      split; [apply obj_get_set_eq|]. split; [done|]. split; [done|].
      by eapply obj_keys_set_present.
    + intros other Hne. by apply obj_get_set_ne.
    + by rewrite (loweredNames_set_present toLowerCase _ me).
  - simpl.
    destruct (Z.ltb_spec (value msg) (minValidatorDeposit config)); [done|].
    intros [= <-]. simpl. split; [|split].
    + exists (newCandidate msg blk (trim candidateName)).
      split; [apply obj_get_set_eq|]. split; [done|]. split; [done|].
      rewrite obj_set_fresh by done. split; [|done].
      by rewrite Permutation_app_comm.
    + intros other Hne. by apply obj_get_set_ne.
    + intros Hnd. rewrite obj_set_fresh by done.
      unfold loweredNames, obj_values in *. rewrite fmap_app, map_app. simpl.
      apply NoDup_app. split; [done|]. split; [|apply NoDup_singleton].
      intros x Hx Hx'. apply list_elem_of_singleton in Hx'. by subst x.
Qed.

Definition keepString : string -> string := fun s => s.

Lemma propose_keeps_registry_witness :
  let cands := default [] (candidates aliceStorage) in
  let cands' := default [] (candidates
       (setCandidates (Some [("pk_alice", alice); ("pk_bob", newCandidate
            {| sender := "op_bob"; signers := ["op_bob"]; value := 300 |}
            {| number := 5; timestamp := 1000 |} "bob")]) aliceStorage)) in
  (exists record,
      obj_get (keepString "pk_bob") cands' = Some record /\
      minValidatorDeposit voteConfig <= deposit record /\
      match obj_get (keepString "pk_bob") cands with
      | Some me =>
          record = addDeposit me 300 /\ obj_keys cands' = obj_keys cands
      | None =>
          record = newCandidate {| sender := "op_bob"; signers := ["op_bob"]; value := 300 |}
                     {| number := 5; timestamp := 1000 |} (keepString "bob") /\
          Permutation cands' ((keepString "pk_bob", record) :: cands) /\
          (digitsOnly (keepString "pk_bob") = false ->
             cands' = cands ++ [(keepString "pk_bob", record)])
      end) /\
  (forall other, keepString "pk_bob" <> other -> obj_get other cands' = obj_get other cands) /\
  (NoDup (loweredNames keepString cands) -> NoDup (loweredNames keepString cands')).
Proof.
  apply (propose_keeps_registry voteConfig keepString keepString (fun _ _ _ => Ok ())
           aliceStorage _ {| sender := "op_bob"; signers := ["op_bob"]; value := 300 |}
           {| number := 5; timestamp := 1000 |} "pk_bob" "bob").
  - reflexivity.
  - reflexivity.
Defined.

(** X9. The duplicate test of [propose] runs over every stored candidate,
    the proposed one included: a registered candidate that proposes again
    under its own name (in any letter case the comparison ignores) is
    refused with "already exists" and its deposit is not raised. *)
Theorem propose_own_name_refused (config : Config) (trim toLowerCase : string -> string)
    (checkPermission : string -> list string -> Z -> Result unit)
    (context : Storage) (msg : Msg) (blk : Block) (pubkey candidateName : string)
    (me : Candidate) :
  trim pubkey <> "" -> trim candidateName <> "" ->
  obj_get (trim pubkey) (default [] (candidates context)) = Some me ->
  toLowerCase (trim candidateName) = toLowerCase (name me) ->
  propose config trim toLowerCase checkPermission context msg blk pubkey candidateName
  = Throw (Error ("Candidate name " +:+ trim candidateName +:+ " already exists.")).
Proof.
  intros Hpk Hname Hme Hsame. unfold propose. simpl.
  destruct (String.eqb_spec (trim pubkey) ""); [done|].
  destruct (String.eqb_spec (trim candidateName) ""); [done|].
  assert (nameTaken toLowerCase (default [] (candidates context)) (trim candidateName)
          = true) as ->; [|done].
  unfold nameTaken. apply existsb_exists. exists me. split.
  - apply list_elem_of_In. unfold obj_values. apply list_elem_of_fmap.
    clear -Hme. induction (default [] (candidates context)) as [|[k c] l IH];
      simpl in *; [done|].
    destruct (String.eqb (trim pubkey) k).
    + injection Hme as ->. exists (k, me). split; [done|]. apply elem_of_cons. by left.
    + destruct (IH Hme) as (x & Hx & Hin). exists x. split; [done|].
      apply elem_of_cons. by right.
  - apply String.eqb_eq. by rewrite Hsame.
Qed.

Lemma propose_own_name_refused_witness :
  propose voteConfig keepString keepString (fun _ _ _ => Ok ()) aliceStorage
    {| sender := "op_alice"; signers := ["op_alice"]; value := 50 |}
    {| number := 9; timestamp := 1000 |} "pk_alice" "alice"
  = Throw (Error ("Candidate name " +:+ keepString "alice" +:+ " already exists.")).
Proof.
  apply (propose_own_name_refused voteConfig keepString keepString (fun _ _ _ => Ok ())
           aliceStorage _ _ "pk_alice" "alice" alice); [done | done | reflexivity | reflexivity].
Defined.

(** *** The withdrawal list *)

(* the amount pending for a key at an unlock block *)
Definition pendingAt (w : WithdrawList) (pubkey : string) (unlockBlock : Z) : Z :=
  default 0 (w !! pubkey ≫= (fun m => m !! unlockBlock)).

(** X11. [_addToWithdrawList] accumulates: the amount pending for the given
    key at the given unlock block grows by the amount added, whether or not
    an entry was there, and the amounts pending for every other key or
    unlock block are unchanged. *)
Theorem _addToWithdrawList_accumulates (w : WithdrawList) (pubkey : string)
    (amount unlockBlock : Z) (pubkey' : string) (unlockBlock' : Z) :
  pendingAt (_addToWithdrawList w pubkey amount unlockBlock) pubkey' unlockBlock'
  = pendingAt w pubkey' unlockBlock'
    + (if decide (pubkey = pubkey' /\ unlockBlock = unlockBlock') then amount else 0).
Proof.
  unfold pendingAt, _addToWithdrawList.
  destruct (decide (pubkey = pubkey')) as [<-|Hpk].
  - rewrite lookup_insert_eq. simpl.
    destruct (decide (unlockBlock = unlockBlock')) as [<-|Hb].
    + rewrite lookup_insert_eq. simpl.
      rewrite decide_True by done.
      destruct (w !! pubkey) as [m|]; simpl; [|by rewrite lookup_empty].
      done.
    + rewrite lookup_insert_ne by done.
      rewrite decide_False by (intros [_ ?]; done).
      destruct (w !! pubkey) as [m|]; simpl; [lia|]. rewrite lookup_empty. simpl. lia.
  - rewrite lookup_insert_ne by done.
    rewrite decide_False by (intros [? _]; done). lia.
Qed.

End Election.

(** ** The read-only execution context ([vm/js/Context.js]) *)

Module Context.

Inductive JsVal :=
| JUndefined
| JString (s : string)
| JNumber (n : Z)
| JBigInt (n : Z)
| JArray (items : list string)   (* the elements, serialized *)
| JInherited (prop : string).    (* a member of [Object.prototype] *)

Definition objectPrototype : list string :=
  ["constructor"; "hasOwnProperty"; "isPrototypeOf"; "propertyIsEnumerable";
   "toLocaleString"; "toString"; "valueOf"; "__proto__"; "__defineGetter__";
   "__defineSetter__"; "__lookupGetter__"; "__lookupSetter__"].

(* [Reflect.get(target, prop)] and [target[prop]] on a plain object: an own
   property, else what [Object.prototype] provides, else undefined *)
Definition reflectGet (target : Obj JsVal) (prop : string) : JsVal :=
  match obj_get prop target with
  | Some v => v
  | None => if includes objectPrototype prop then JInherited prop else JUndefined
  end.

(* an entry [stateTable[address]] *)
Record Entry := {
  entryState : option (Obj JsVal);
  entryBalance : option Z }.

(* the options of a view call: [const { from, block } = options] *)
Record ViewOptions := { from : option string; blockNumber : Z }.

(* the object wrapped by the proxy:
   [{ name, params, sender: from, callType: 'view' }] *)
Definition viewMsgTarget (name : string) (params : list string) (options : ViewOptions)
    : Obj JsVal :=
  [("name", JString name);
   ("params", JArray params);
   ("sender", from_option JString JUndefined (from options));
   ("callType", JString "view")].

(* the [get] trap of the proxy. [Object.keys(msg)] asks the proxy for its
   own keys; the handler has no [ownKeys] trap, so the keys are the
   target's. *)
Definition msgGet (target : Obj JsVal) (prop : string) : Result JsVal :=
  if includes (obj_keys target) prop
     && negb (includes ["name"; "params"; "callType"; "sender"] prop)
  then Throw (Error ("Cannot access msg." +:+ prop +:+ " when calling a @view function"))
  else Ok (reflectGet target prop).

(* the frozen context object: [address], [balance], the message behind
   [getEnv().msg] and the private copy of the contract's state *)
Record ViewContext := {
  address : string;
  balance : Z;
  msg : Obj JsVal;
  state : Obj JsVal }.

(* [contextForView]; reading [stateTable[address].state] raises when the
   table has no entry for the address *)
Definition contextForView (stateTable : gmap string Entry) (address : string)
    (name : string) (params : list string) (options : ViewOptions)
    : Result ViewContext :=
  let msg := viewMsgTarget name params options in
  match stateTable !! address with
  | Some entry =>
      Ok {| address := address;
            balance := default 0 (entryBalance entry);
            msg := msg;
            state := default [] (entryState entry) |}
  | None => Throw (TypeError "Cannot read property 'state' of undefined")
  end.

(* [ctx.getEnv().msg[prop]], as contract code reads it *)
Definition readMsg (ctx : ViewContext) (prop : string) : Result JsVal :=
  msgGet (msg ctx) prop.

Definition transfer (ctx : ViewContext) : Result unit :=
  Throw (Error "Cannot transfer inside a view function").

Definition hasState (ctx : ViewContext) (key : string) : bool :=
  bool_decide (is_Some (obj_get key (state ctx))).

Definition getState (ctx : ViewContext) (key : string) : JsVal :=
  reflectGet (state ctx) key.

Definition setState (ctx : ViewContext) : Result unit :=
  Throw (Error "Cannot change state inside a view function").

(* the two membership tests of the trap never disagree on this message *)
Lemma msgGet_view_total name params options prop :
  msgGet (viewMsgTarget name params options) prop
  = Ok (reflectGet (viewMsgTarget name params options) prop).
Proof.
  unfold msgGet, includes, obj_keys. simpl.
  destruct (String.eqb prop "name"), (String.eqb prop "params"),
    (String.eqb prop "sender"), (String.eqb prop "callType"); reflexivity.
Qed.

Lemma contextForView_msg stateTable address name params options ctx :
  contextForView stateTable address name params options = Ok ctx ->
  msg ctx = viewMsgTarget name params options.
Proof.
  unfold contextForView. destruct (stateTable !! address); [|done].
  by intros [= <-].
Qed.

(** C3. The message object of a view context has exactly the four fields
    name, params, sender and callType, but reading any other property
    through the proxy never raises: the guard of the [get] trap looks the
    property up among the message's own keys, which are the four permitted
    ones, so its [throw] cannot be reached, and [msg.value], [msg.fee] and
    [msg.signers] read as undefined. *)
Theorem view_msg_reads_never_throw (stateTable : gmap string Entry)
    (address name : string) (params : list string) (options : ViewOptions)
    (ctx : ViewContext) :
  contextForView stateTable address name params options = Ok ctx ->
  obj_keys (msg ctx) = ["name"; "params"; "sender"; "callType"] /\
  readMsg ctx "value" = Ok JUndefined /\
  readMsg ctx "fee" = Ok JUndefined /\
  readMsg ctx "signers" = Ok JUndefined /\
  forall prop, isOk (readMsg ctx prop) = true.
Proof.
  intros Hctx. apply contextForView_msg in Hctx. unfold readMsg. rewrite Hctx.
  repeat split. intros prop. by rewrite msgGet_view_total.
Qed.

Definition counterEntry : Entry :=
  {| entryState := Some [("count", JNumber 3)]; entryBalance := Some 0 |}.

Definition counterView : ViewContext :=
  {| address := "teat1contract"; balance := 0;
     msg := viewMsgTarget "getCount" [] {| from := Some "teat1alice"; blockNumber := 5 |};
     state := [("count", JNumber 3)] |}.

Lemma view_msg_reads_never_throw_witness :
  obj_keys (msg counterView) = ["name"; "params"; "sender"; "callType"] /\
  readMsg counterView "value" = Ok JUndefined /\
  readMsg counterView "fee" = Ok JUndefined /\
  readMsg counterView "signers" = Ok JUndefined /\
  forall prop, isOk (readMsg counterView prop) = true.
Proof.
  apply (view_msg_reads_never_throw {[ "teat1contract" := counterEntry ]}
           "teat1contract" "getCount" [] {| from := Some "teat1alice"; blockNumber := 5 |}).
  vm_compute. reflexivity.
Defined.

End Context.

(** ** The gate system contract *)

Module Gate.

(* request payloads and results are opaque to the contract *)
Abbreviation Payload := string.

(* the first argument of [request]: a path, or an object [{ path, data }] *)
Inductive PathArg :=
| PathString (s : string)
| PathObject (path : option string) (data : option Payload).

Record RequestData := {
  path : PathArg;
  data : option Payload;
  options : Obj Payload }.

Record Provider := { operator : string; deposit : Z }.

(* the values the contract keeps in its state *)
Inductive StateVal :=
| VNumber (n : Z)
| VString (s : string)
| VRequest (r : RequestData)
| VProviders (ps : gmap string Provider).

Record Event := {
  eventName : string;
  eventId : string;
  eventPath : PathArg;
  indexes : list string }.

(* the execution context of the contract: its key/value state and the
   events emitted so far *)
Record Context := {
  state : gmap string StateVal;
  events : list Event }.

Record Msg := { sender : string }.

(** Modelled from the spec: the execution context of a system contract is
    not part of the sources. [this.getState(key, defVal)] gives the value
    stored under the key, or [defVal] when there is none, and
    [this.setState(key, value)] stores it, as [getState] and [setState] of
    [contextForWrite] in [vm/js/Context.js] do. *)
Definition getState (this : Context) (key : string) (defVal : option StateVal)
    : option StateVal :=
  match state this !! key with
  | Some v => Some v
  | None => defVal
  end.

(* [this.setState(key, value)] *)
Definition setState (key : string) (value : StateVal) (this : Context) : Context :=
  {| state := <[key := value]> (state this); events := events this |}.

(* [this.emitEvent(eventName, { id, path }, indexes)] *)
Definition emitEvent (ev : Event) (this : Context) : Context :=
  {| state := state this; events := events this ++ [ev] |}.

(* JavaScript truthiness of a string *)
Definition truthyString (s : string) : bool := negb (String.eqb s "").

(* [lastNum + 1]: addition on a number, concatenation otherwise. The counter
   is written by [request] alone and counts up from 0; up to 2^53 the sum of
   numbers is the sum written here. *)
Definition plusOne (v : StateVal) : StateVal :=
  match v with
  | VNumber n => VNumber (n + 1)
  | VString s => VString (s +:+ "1")
  | VRequest _ | VProviders _ => VString "[object Object]1"
  end.

(* the conversion applied by [msg.sender + '_' + currentNum] *)
Definition toString (v : StateVal) : string :=
  match v with
  | VNumber n => pretty n
  | VString s => s
  | VRequest _ | VProviders _ => "[object Object]"
  end.

Definition PROVIDERS_KEY : string := "prividers".

(* [c => c.getState(PROVIDERS_KEY, {})] *)
Definition _getProviders (c : Context) : StateVal :=
  default (VProviders ∅) (getState c PROVIDERS_KEY (Some (VProviders ∅))).

(* [requestData.options.requester] *)
Definition requesterOf (requestData : StateVal) : Result (option string) :=
  match requestData with
  | VRequest r => Ok (obj_get "requester" (options r))
  | VProviders ps =>
      match ps !! "options" with
      | Some _ => Ok None
      | None => Throw (TypeError "Cannot read property 'requester' of undefined")
      end
  | VNumber _ | VString _ =>
      Throw (TypeError "Cannot read property 'requester' of undefined")
  end.

Section Contract.
(* [getContractInfo(address, errorMessage)] of the runtime: raises unless
   the address is a contract *)
Variable getContractInfo : string -> string -> Result unit.

Definition request (this : Context) (msg : Msg) (path : PathArg)
    (opts : option (Obj Payload)) : Result (string * Context) :=
  _ ← getContractInfo (sender msg) "This function must be called from a contract.";
  let '(p, d) :=
    match path with
    | PathObject (Some s) d => if truthyString s then (PathString s, d) else (path, None)
    | _ => (path, None)
    end in
  (* [Object.assign({}, opts || {}, { requester: msg.sender })] *)
  let options := obj_set "requester" (sender msg) (default [] opts) in
  let requestData := {| path := p; data := d; options := options |} in
  let numKey := sender msg +:+ "_c" in
  let lastNum := default (VNumber (-1)) (getState this numKey (Some (VNumber (-1)))) in
  let currentNum := plusOne lastNum in
  let requestId := sender msg +:+ "_" +:+ toString currentNum in
  let this := setState numKey currentNum this in
  let this := setState requestId (VRequest requestData) this in
  let this :=
    emitEvent {| eventName := "OffchainDataQuery"; eventId := requestId;
                 eventPath := p; indexes := ["path"] |} this in
  Ok (requestId, this).

End Contract.

(** *** Request identifiers *)

Lemma append_inv_l (s a b : string) : s +:+ a = s +:+ b -> a = b.
Proof.
  induction s as [|ch s IH]; simpl; [done|].
  intros [= H]. by apply IH.
Qed.

(* no digit is the letter of the counter key *)
Lemma pretty_N_go_ne_c (x : N) (s : string) : s <> "c" -> pretty_N_go x s <> "c".
Proof.
  revert s. induction (N.lt_wf_0 x) as [x _ IH]. intros s Hs.
  destruct (decide (x = 0%N)) as [->|Hx]; [by rewrite pretty_N_go_0|].
  rewrite pretty_N_go_step by lia.
  apply IH; [apply N.div_lt; lia|].
  unfold pretty_N_char. repeat case_match; discriminate.
Qed.

Lemma pretty_Z_ne_c (n : Z) : pretty n <> "c".
Proof.
  destruct n as [|p|p]; [done| |done].
  unfold pretty, pretty_Z, pretty, pretty_positive, pretty, pretty_N.
  destruct (decide (N.pos p = 0%N)); [done|].
  by apply pretty_N_go_ne_c.
Qed.

Lemma toString_plusOne_ne_c (v : StateVal) : toString (plusOne v) <> "c".
Proof.
  destruct v as [n|s|r|ps]; simpl; try done.
  - apply pretty_Z_ne_c.
  - destruct s as [|a [|b s]]; simpl; discriminate.
Qed.

(* the counter key of a caller is never one of its request identifiers *)
Lemma numKey_ne_requestId (who : string) (v : StateVal) :
  who +:+ "_c" <> who +:+ "_" +:+ toString (plusOne v).
Proof.
  intros H. apply append_inv_l in H. injection H as H.
  by eapply toString_plusOne_ne_c.
Qed.

Section Facts.
Variable getContractInfo : string -> string -> Result unit.

(* one call of [request] by a contract, for any stored counter *)
Lemma request_step this msg path opts :
  getContractInfo (sender msg) "This function must be called from a contract." = Ok () ->
  let lastNum := default (VNumber (-1)) (state this !! (sender msg +:+ "_c")) in
  exists this',
    request getContractInfo this msg path opts
      = Ok (sender msg +:+ "_" +:+ toString (plusOne lastNum), this') /\
    state this' !! (sender msg +:+ "_c") = Some (plusOne lastNum) /\
    is_Some (state this' !! (sender msg +:+ "_" +:+ toString (plusOne lastNum))).
Proof.
  intros Hinfo lastNum. unfold request. rewrite Hinfo. simpl.
  assert (default (VNumber (-1))
            (getState this (sender msg +:+ "_c") (Some (VNumber (-1)))) = lastNum) as ->.
  { unfold getState, lastNum. by destruct (state this !! _). }
  destruct (match path with
            | PathObject (Some s) d =>
                if truthyString s then (PathString s, d) else (path, None)
            | _ => (path, None)
            end) as [p d].
  eexists. split; [reflexivity|]. simpl. split.
  - rewrite lookup_insert_ne by (apply not_eq_sym, numKey_ne_requestId).
    by rewrite lookup_insert_eq.
  - rewrite lookup_insert_eq. by eexists.
Qed.

(** C10. For a caller that is a contract: when no counter is stored for it,
    [request] returns the id [<caller>_0] and stores the counter 0; when the
    counter [n] is stored, it returns [<caller>_<n+1>] and stores [n + 1];
    and the request that follows immediately returns [<caller>_<n+2>]. *)
Theorem request_ids_consecutive (this : Context) (msg : Msg) (path : PathArg)
    (opts : option (Obj Payload)) :
  getContractInfo (sender msg) "This function must be called from a contract." = Ok () ->
  let numKey := sender msg +:+ "_c" in
  (state this !! numKey = None ->
   exists this',
     request getContractInfo this msg path opts = Ok (sender msg +:+ "_0", this') /\
     state this' !! numKey = Some (VNumber 0)) /\
  (forall n : Z, state this !! numKey = Some (VNumber n) ->
   exists this',
     request getContractInfo this msg path opts
       = Ok (sender msg +:+ "_" +:+ pretty (n + 1), this') /\
     state this' !! numKey = Some (VNumber (n + 1)) /\
     forall path2 opts2, exists this'',
       request getContractInfo this' msg path2 opts2
         = Ok (sender msg +:+ "_" +:+ pretty (n + 1 + 1), this'') /\
       state this'' !! numKey = Some (VNumber (n + 1 + 1))).
Proof.
  intros Hinfo numKey. split.
  - intros Hnone.
    destruct (request_step this msg path opts Hinfo) as (this' & Hreq & Hnum & _).
    fold numKey in Hreq, Hnum. rewrite Hnone in Hreq, Hnum. simpl in Hreq, Hnum.
    by exists this'.
  - intros n Hn.
    destruct (request_step this msg path opts Hinfo) as (this' & Hreq & Hnum & _).
    fold numKey in Hreq, Hnum. rewrite Hn in Hreq, Hnum. simpl in Hreq, Hnum.
    exists this'. split; [done|]. split; [done|].
    intros path2 opts2.
    destruct (request_step this' msg path2 opts2 Hinfo) as (this'' & Hreq2 & Hnum2 & _).
    fold numKey in Hreq2, Hnum2. rewrite Hnum in Hreq2, Hnum2. simpl in Hreq2, Hnum2.
    by exists this''.
Qed.

End Facts.

(** *** A stored request *)

Definition weather : RequestData :=
  {| path := PathString "weather"; data := None;
     options := [("requester", "teat1caller")] |}.

Definition pending : Context :=
  {| state :=
       {[ PROVIDERS_KEY := VProviders {[ "teat1provider" := {| operator := "teat1op"; deposit := 10 |} ]};
          "teat1caller_c" := VNumber 0;
          "teat1caller_0" := VRequest weather ]};
     events := [] |}.

Definition fresh : Context := {| state := ∅; events := [] |}.

Lemma request_ids_consecutive_witness :
  exists this',
    request (fun _ _ => Ok ()) fresh {| sender := "teat1caller" |} (PathString "weather") None
      = Ok ("teat1caller" +:+ "_0", this') /\
    state this' !! ("teat1caller" +:+ "_c") = Some (VNumber 0).
Proof.
  apply (request_ids_consecutive (fun _ _ => Ok ()) fresh {| sender := "teat1caller" |}
           (PathString "weather") None eq_refl).
  vm_compute. reflexivity.
Defined.

(* three requests in a row by one caller *)
Example request_three_ids :
  let ask this := request (fun _ _ => Ok ()) this {| sender := "teat1caller" |}
                    (PathString "weather") None in
  ('(id0, c1) ← ask fresh; '(id1, c2) ← ask c1; '(id2, _) ← ask c2;
   Ok [id0; id1; id2])
  = Ok ["teat1caller_0"; "teat1caller_1"; "teat1caller_2"].
Proof. vm_compute. reflexivity. Qed.

(** *** More on requests *)

(* the contract method [getRequest]: a copy of what is stored under the id *)
Definition getRequest (this : Context) (requestId : string) : option StateVal :=
  getState this requestId None.

Fixpoint noUnderscore (s : string) : bool :=
  match s with
  | EmptyString => true
  | String c s' => negb (Ascii.eqb c "_"%char) && noUnderscore s'
  end.

Lemma noUnderscore_joined (a b : string) :
  noUnderscore (a +:+ String "_"%char b) = false.
Proof.
  induction a as [|c a IH]; simpl; [done|]. rewrite IH. apply andb_false_r.
Qed.

Lemma pretty_N_go_noUnderscore (x : N) (s : string) :
  noUnderscore s = true -> noUnderscore (pretty_N_go x s) = true.
Proof.
  revert s. induction (N.lt_wf_0 x) as [x _ IH]. intros s Hs.
  destruct (decide (x = 0%N)) as [->|Hx]; [by rewrite pretty_N_go_0|].
  rewrite pretty_N_go_step by lia.
  apply IH; [apply N.div_lt; lia|].
  simpl. rewrite Hs. unfold pretty_N_char. by repeat case_match.
Qed.

Lemma pretty_Z_noUnderscore (n : Z) : noUnderscore (pretty n) = true.
Proof.
  destruct n as [|p|p]; [done| |].
  - unfold pretty, pretty_Z, pretty, pretty_positive, pretty, pretty_N.
    destruct (decide (N.pos p = 0%N)); [done|]. by apply pretty_N_go_noUnderscore.
  - unfold pretty, pretty_Z. simpl.
    unfold pretty, pretty_positive, pretty, pretty_N.
    destruct (decide (N.pos p = 0%N)); [done|]. by apply pretty_N_go_noUnderscore.
Qed.

Lemma append_nil_l (s : string) : "" +:+ s = s.
Proof. reflexivity. Qed.

Lemma append_cons (c : ascii) (s t : string) : String c s +:+ t = String c (s +:+ t).
Proof. reflexivity. Qed.

(* an identifier splits at its last underscore in one way only *)
Lemma split_last_underscore (s1 s2 d1 d2 : string) :
  noUnderscore d1 = true -> noUnderscore d2 = true ->
  s1 +:+ "_" +:+ d1 = s2 +:+ "_" +:+ d2 -> s1 = s2 /\ d1 = d2.
Proof.
  intros Hd1 Hd2. revert s2.
  induction s1 as [|c s1 IH]; intros [|c' s2]; intros H;
    rewrite ?append_cons, ?append_nil_l in H.
  - injection H as H. by subst.
  - injection H as Hc H. subst d1. by rewrite noUnderscore_joined in Hd1.
  - injection H as Hc H. subst d2. by rewrite noUnderscore_joined in Hd2.
  - injection H as Hc H. subst c'. destruct (IH _ H) as [-> ->]. done.
Qed.

Lemma providersKey_ne_joined (a b : string) : PROVIDERS_KEY <> a +:+ "_" +:+ b.
Proof.
  intros H. pose proof (noUnderscore_joined a b) as Hj.
  change (a +:+ String "_"%char b) with (a +:+ "_" +:+ b) in Hj.
  rewrite <- H in Hj. done.
Qed.

(* the stored counter of a caller is a safe integer, or there is none yet:
   [request] stores nothing else under that key, one after the other from 0 *)
Definition counterIsSafe (this : Context) (who : string) : Prop :=
  forall v, state this !! (who +:+ "_c") = Some v ->
    exists n, v = VNumber n /\ isSafeInteger n.

Section MoreFacts.
Variable getContractInfo : string -> string -> Result unit.

(* everything one call of [request] does *)
Lemma request_effect this msg path opts :
  getContractInfo (sender msg) "This function must be called from a contract." = Ok () ->
  let lastNum := default (VNumber (-1)) (state this !! (sender msg +:+ "_c")) in
  let requestId := sender msg +:+ "_" +:+ toString (plusOne lastNum) in
  exists rd,
    request getContractInfo this msg path opts
      = Ok (requestId,
            {| state := <[requestId := VRequest rd]>
                          (<[sender msg +:+ "_c" := plusOne lastNum]> (state this));
               events := events this ++
                         [{| eventName := "OffchainDataQuery"; eventId := requestId;
                             eventPath := Gate.path rd; indexes := ["path"] |}] |}) /\
    options rd = obj_set "requester" (sender msg) (default [] opts) /\
    match path with
    | PathObject (Some s) d =>
        if truthyString s then Gate.path rd = PathString s /\ data rd = d
        else Gate.path rd = path /\ data rd = None
    | _ => Gate.path rd = path /\ data rd = None
    end.
Proof.
  intros Hinfo lastNum requestId. unfold request. rewrite Hinfo. simpl.
  assert (default (VNumber (-1))
            (getState this (sender msg +:+ "_c") (Some (VNumber (-1)))) = lastNum) as ->.
  { unfold getState, lastNum. by destruct (state this !! _). }
  set (options := obj_set "requester" (sender msg) (default [] opts)).
  destruct path as [s|[s|] d]; simpl.
  - by exists {| path := PathString s; data := None; options := options |}.
  - destruct (truthyString s).
    + by exists {| path := PathString s; data := d; options := options |}.
    + by exists {| path := PathObject (Some s) d; data := None; options := options |}.
  - by exists {| path := PathObject None d; data := None; options := options |}.
Qed.

(** X12. What [request] stores can be read back with [getRequest] under the
    id it returned, and the stored requester is always the calling
    contract: a "requester" entry passed in the options is overwritten,
    every other option is kept as passed. *)
Theorem request_then_getRequest (this : Context) (msg : Msg) (path : PathArg)
    (opts : option (Obj Payload)) :
  getContractInfo (sender msg) "This function must be called from a contract." = Ok () ->
  exists requestId this' rd,
    request getContractInfo this msg path opts = Ok (requestId, this') /\
    getRequest this' requestId = Some (VRequest rd) /\
    requesterOf (VRequest rd) = Ok (Some (sender msg)) /\
    (forall key, key <> "requester" ->
        obj_get key (options rd) = obj_get key (default [] opts)) /\
    (forall s, path = PathString s -> Gate.path rd = PathString s /\ data rd = None).
Proof.
  intros Hinfo.
  destruct (request_effect this msg path opts Hinfo) as (rd & Hreq & Hopts & Hpath).
  eexists _, _, rd. split; [exact Hreq|].
  split; [unfold getRequest, getState; simpl; by rewrite lookup_insert_eq|].
  split; [simpl; by rewrite Hopts, obj_get_set_eq|].
  split.
  - intros key Hne. rewrite Hopts. apply obj_get_set_ne. congruence.
  - intros s ->. done.
Qed.

(** X13. One call of [request] writes two keys of the contract's state, the
    caller's counter and the new request, and nothing else: every other
    key, the registered providers among them, reads as before, and exactly
    one OffchainDataQuery event carrying the new id, indexed by path, is
    appended to the events. *)
Theorem request_writes_two_keys (this : Context) (msg : Msg) (path : PathArg)
    (opts : option (Obj Payload)) :
  getContractInfo (sender msg) "This function must be called from a contract." = Ok () ->
  exists requestId this' ev,
    request getContractInfo this msg path opts = Ok (requestId, this') /\
    (forall key, key <> sender msg +:+ "_c" -> key <> requestId ->
        state this' !! key = state this !! key) /\
    _getProviders this' = _getProviders this /\
    events this' = events this ++ [ev] /\
    eventName ev = "OffchainDataQuery" /\ eventId ev = requestId /\
    indexes ev = ["path"].
Proof.
  intros Hinfo.
  destruct (request_effect this msg path opts Hinfo) as (rd & Hreq & _ & _).
  eexists _, _, _. split; [exact Hreq|]. simpl.
  split; [|split; [|done]].
  - intros key Hc Hid. by rewrite !lookup_insert_ne by done.
  - unfold _getProviders, getState. simpl.
    rewrite !lookup_insert_ne; [done| |];
      apply not_eq_sym, providersKey_ne_joined.
Qed.

(** X14. Request ids do not collide: when two calls of [request], by any
    callers in any states whose counters are safe integers (the counters
    [request] itself stores are), return the same id, the callers are the
    same and their counters read the same before the call. *)
Theorem request_ids_injective (this1 this2 this1' this2' : Context) (msg1 msg2 : Msg)
    (path1 path2 : PathArg) (opts1 opts2 : option (Obj Payload)) (requestId : string) :
  counterIsSafe this1 (sender msg1) -> counterIsSafe this2 (sender msg2) ->
  request getContractInfo this1 msg1 path1 opts1 = Ok (requestId, this1') ->
  request getContractInfo this2 msg2 path2 opts2 = Ok (requestId, this2') ->
  sender msg1 = sender msg2 /\
  getState this1 (sender msg1 +:+ "_c") (Some (VNumber (-1)))
    = getState this2 (sender msg2 +:+ "_c") (Some (VNumber (-1))).
Proof.
  intros Hn1 Hn2 Hr1 Hr2.
  assert (forall this msg path opts this',
            counterIsSafe this (sender msg) ->
            request getContractInfo this msg path opts = Ok (requestId, this') ->
            exists n, getState this (sender msg +:+ "_c") (Some (VNumber (-1)))
                      = Some (VNumber n) /\
                      requestId = sender msg +:+ "_" +:+ pretty (n + 1)) as Hshape.
  { intros this msg path opts this' Hn Hr.
    assert (getContractInfo (sender msg) "This function must be called from a contract."
            = Ok ()) as Hinfo.
    { unfold request in Hr.
      destruct (getContractInfo _ _) as [[]|e]; [done|discriminate]. }
    destruct (request_effect this msg path opts Hinfo) as (rd & Hreq & _).
    rewrite Hreq in Hr. injection Hr as Hid _. unfold getState.
    destruct (state this !! (sender msg +:+ "_c")) as [v|] eqn:Hv; simpl in *.
    - destruct (Hn v Hv) as (n & -> & _). by exists n.
    - by exists (-1). }
  destruct (Hshape _ _ _ _ _ Hn1 Hr1) as (n1 & Hl1 & Hid1).
  destruct (Hshape _ _ _ _ _ Hn2 Hr2) as (n2 & Hl2 & Hid2).
  rewrite Hid1 in Hid2.
  apply split_last_underscore in Hid2 as [Hs Hp]; try apply pretty_Z_noUnderscore.
  apply (inj pretty) in Hp. split; [done|].
  rewrite Hl1, Hl2. do 2 f_equal. lia.
Qed.

End MoreFacts.

Definition isContractStub : string -> string -> Result unit := fun _ _ => Ok ().

Lemma request_then_getRequest_witness :
  exists requestId this' rd,
    request isContractStub fresh {| sender := "teat1caller" |} (PathString "weather")
      (Some [("requester", "teat1mallory"); ("unit", "celsius")])
      = Ok (requestId, this') /\
    getRequest this' requestId = Some (VRequest rd) /\
    requesterOf (VRequest rd) = Ok (Some "teat1caller") /\
    (forall key, key <> "requester" ->
        obj_get key (options rd)
        = obj_get key (default [] (Some [("requester", "teat1mallory"); ("unit", "celsius")]))) /\
    (forall s, PathString "weather" = PathString s ->
        Gate.path rd = PathString s /\ data rd = None).
Proof.
  apply (request_then_getRequest isContractStub fresh {| sender := "teat1caller" |}
           (PathString "weather")
           (Some [("requester", "teat1mallory"); ("unit", "celsius")])).
  reflexivity.
Defined.

Lemma request_writes_two_keys_witness :
  exists requestId this' ev,
    request isContractStub pending {| sender := "teat1caller" |} (PathString "rain") None
      = Ok (requestId, this') /\
    (forall key, key <> "teat1caller" +:+ "_c" -> key <> requestId ->
        state this' !! key = state pending !! key) /\
    _getProviders this' = _getProviders pending /\
    events this' = events pending ++ [ev] /\
    eventName ev = "OffchainDataQuery" /\ eventId ev = requestId /\
    indexes ev = ["path"].
Proof.
  apply (request_writes_two_keys isContractStub pending {| sender := "teat1caller" |}
           (PathString "rain") None).
  reflexivity.
Defined.

Definition countedOnce : Context :=
  {| state := {[ "teat1caller_c" := VNumber 0 ]}; events := [] |}.

Lemma request_ids_injective_witness :
  sender {| sender := "teat1caller" |} = sender {| sender := "teat1caller" |} /\
  getState countedOnce (sender {| sender := "teat1caller" |} +:+ "_c") (Some (VNumber (-1)))
    = getState pending (sender {| sender := "teat1caller" |} +:+ "_c") (Some (VNumber (-1))).
Proof.
  eapply (request_ids_injective isContractStub countedOnce pending _ _
            {| sender := "teat1caller" |} {| sender := "teat1caller" |}
            (PathString "rain") (PathString "snow") None None "teat1caller_1").
  - intros v Hv. vm_compute in Hv. injection Hv as <-. exists 0. split; [done|].
    unfold isSafeInteger, MAX_SAFE_INTEGER. simpl. lia.
  - intros v Hv. vm_compute in Hv. injection Hv as <-. exists 0. split; [done|].
    unfold isSafeInteger, MAX_SAFE_INTEGER. simpl. lia.
  - reflexivity.
  - reflexivity.
Defined.

End Gate.

(** ** The transaction pipeline ([app.js]) *)

Module App.

(* [tx.data.op]: selects [isContractCreation()] and [isContractCall()] *)
Inductive TxOp := OpDeploy | OpCall.

Record TxData := {
  op : option TxOp;
  name : option string;
  params : list string }.

Record Tx := {
  from : option string;
  to : option string;
  value : Z;                 (* BigInt *)
  fee : Z;                   (* BigInt *)
  data : TxData;
  signers : list string }.

Definition isContractCreation (tx : Tx) : bool :=
  match op (data tx) with Some OpDeploy => true | _ => false end.
Definition isContractCall (tx : Tx) : bool :=
  match op (data tx) with Some OpCall => true | _ => false end.

Definition setTo (a : option string) (tx : Tx) : Tx :=
  {| from := from tx; to := a; value := value tx; fee := fee tx;
     data := data tx; signers := signers tx |}.
Definition setFrom (a : option string) (tx : Tx) : Tx :=
  {| from := a; to := to tx; value := value tx; fee := fee tx;
     data := data tx; signers := signers tx |}.

(* truthiness of a string that may be undefined *)
Definition truthy (a : option string) : bool :=
  match a with
  | Some s => negb (String.eqb s "")
  | None => false
  end.

(* an undefined value used as a property key reads as the key "undefined" *)
Definition propertyKey (a : option string) : string := default "undefined" a.

(* [s.includes('.')] *)
Definition includesDot (s : string) : bool :=
  match String.index 0 "." s with Some _ => true | None => false end.

(** *** The state manager *)

Record Account := {
  balance : Z;
  src : option string;       (* contract source, if any *)
  system : bool;
  deployedBy : option string }.

Abbreviation StateTable := (gmap string Account).

(* what the observers registered by [addStateObserver] are told *)
Inductive Notification := BeginCheckpoint | EndCheckpoint.

Record StateManager := {
  stateTable : StateTable;           (* the canonical account store *)
  blockNumber : Z;
  notified : list Notification }.    (* notifications sent so far, oldest first *)

Definition withTable (t : StateTable) (sm : StateManager) : StateManager :=
  {| stateTable := t; blockNumber := blockNumber sm; notified := notified sm |}.

(** Modelled from the spec: the state manager ([statemanager.js]) is not
    part of the sources. "[beginCheckpoint()] opens a new pending-transaction
    scope" and "[endCheckpoint()] closes the scope and notifies observers";
    [addStateObserver] binds [beforeTx] to the first and [afterTx] to the
    second. *)
Definition beginCheckpoint (sm : StateManager) : StateManager :=
  {| stateTable := stateTable sm; blockNumber := blockNumber sm;
     notified := notified sm ++ [BeginCheckpoint] |}.
Definition endCheckpoint (sm : StateManager) : StateManager :=
  {| stateTable := stateTable sm; blockNumber := blockNumber sm;
     notified := notified sm ++ [EndCheckpoint] |}.

(** Modelled from the spec: "[produceDraft()] returns a write-overlay bound
    to the currently loaded Account set" and "[applyDraft(patch)] merges the
    overlay into the canonical set". The overlay is the account set as the
    running transaction sees it. *)
Definition produceDraft (sm : StateManager) : StateTable := stateTable sm.
Definition applyDraft (patch : StateTable) (sm : StateManager) : StateManager :=
  withTable patch sm.

(** Modelled from the spec: an account that was never credited has the
    balance 0. *)
Definition balanceOf (sm : StateManager) (addr : option string) : Z :=
  match stateTable sm !! propertyKey addr with
  | Some acc => balance acc
  | None => 0
  end.

(** Modelled from the spec: an account is a contract when it holds code or
    is a system contract ([getMetadata] rejects an address with neither),
    and a regular contract when it holds code and is not a system one. *)
Definition isContractAccount (acc : Account) : bool :=
  bool_decide (is_Some (src acc)) || system acc.
Definition isContract (t : StateTable) (addr : option string) : bool :=
  match t !! propertyKey addr with
  | Some acc => isContractAccount acc
  | None => false
  end.
Definition isRegularContract (t : StateTable) (addr : option string) : bool :=
  match t !! propertyKey addr with
  | Some acc => bool_decide (is_Some (src acc)) && negb (system acc)
  | None => false
  end.

Definition addBalance (addr : string) (amount : Z) (t : StateTable) : StateTable :=
  match t !! addr with
  | Some acc =>
      <[addr := {| balance := balance acc + amount; src := src acc;
                   system := system acc; deployedBy := deployedBy acc |}]> t
  | None =>
      <[addr := {| balance := amount; src := None; system := false;
                   deployedBy := None |}]> t
  end.

(** Modelled from the spec: "perform the value/fee transfer", "debiting
    sender, crediting recipient": the sender pays value and fee, the
    recipient receives the value. Only balances change. *)
Definition handleTransfer (tx : Tx) (t : StateTable) : StateTable :=
  addBalance (propertyKey (to tx)) (value tx)
    (addBalance (propertyKey (from tx)) (- (value tx + fee tx)) t).

(** *** Results of an invocation *)

(* the array [[returnValue, tags]] with its optional [__gas_used] *)
Record InvokeResult := {
  returnValue : option string;
  tags : Obj string;
  gasUsed : option Z }.

Definition reserved : list string :=
  ["constructor"; "__on_received"; "__on_deployed"; "getState"; "setState"; "getEnv"].

Section Pipeline.
(* collaborators outside the sources; each may raise *)
Variable verifyTxSignature : Tx -> Result unit.
Variable aliasEnsureAddress : StateTable -> string -> Result string.
Variable validateAddress : string -> Result unit.
Variable checkPermission : StateTable -> option string -> list string -> Result unit.
(* the contract invoker and the tools of a draft; an invocation works on the
   overlay handed to it, if any, and returns it as the call left it *)
Variable prepareContract : Tx -> Result string.
Variable deployContract : option string -> string -> StateTable -> string * StateTable.
Variable refectTxValueAndFee : Tx -> StateTable -> Result StateTable.
Variable invokeUpdate :
  option string -> string -> list string -> Tx -> option StateTable ->
  Result (InvokeResult * option StateTable).
Variable invokeTx : Tx -> option StateTable -> Result (InvokeResult * option StateTable).
(* [utils.emitTransferred(null, tags, from, to, value)] *)
Variable emitTransferred :
  option (Obj string) -> option string -> option string -> Z -> Obj string.

(* [_ensureAddress] *)
Definition _ensureAddress (sm : StateManager) (addr : string) : Result string :=
  if negb (String.eqb addr "") && includesDot addr
  then aliasEnsureAddress (stateTable sm) addr
  else Ok addr.

(* [tx.to] when it is truthy *)
Definition destination (tx : Tx) : option string :=
  if truthy (to tx) then to tx else None.

(* [tx.from || tx.signers[0]] *)
Definition senderOf (tx : Tx) : option string :=
  if truthy (from tx) then from tx else head (signers tx).

Definition checkTx (sm : StateManager) (tx : Tx) : Result Tx :=
  _ ← verifyTxSignature tx;
  tx ← match destination tx with
        | Some addr =>
            addr ← _ensureAddress sm addr;
            _ ← (if includesDot addr then
                    if negb (String.prefix "system." addr)
                    then Throw (Error ("Invalid destination alias " +:+ addr))
                    else Ok ()
                  else validateAddress addr);
            Ok (setTo (Some addr) tx)
        | None =>
            if negb (isContractCreation tx)
            then Throw (Error "Transaction destination address is required.")
            else Ok tx
        end;
  _ ← match signers tx with
       | [] => Throw (Error "Must have at lease one signature.")
       | [s] =>
           if bool_decide (from tx = Some s)
           then Throw (Error "No need to set 'from' to save blockchain data size.")
           else Ok ()
       | _ =>
           if negb (truthy (from tx))
           then Throw (Error "Must explicitly set 'from' when there are more than 1 signer.")
           else Ok ()
       end;
  let tx := setFrom (senderOf tx) tx in
  _ ← checkPermission (stateTable sm) (from tx) (signers tx);
  if balanceOf sm (from tx) <? value tx + fee tx
  then Throw (Error "Not enough balance")
  else Ok tx.

(* [willCallContract] *)
Definition willCallContract (sm : StateManager) (tx : Tx) : bool :=
  isContractCreation tx || isContractCall tx
  || ((0 <? value tx) && isContract (stateTable sm) (to tx)).

(* [result[0] = tx.to] *)
Definition setReturnValue (v : option string) (r : InvokeResult) : InvokeResult :=
  {| returnValue := v; tags := tags r; gasUsed := gasUsed r |}.

(* One step of [doExecTx] leaves the canonical table and the draft as they
   are after it, or raises with the canonical table as it is then. *)
Definition Step (A : Type) : Type := StateTable * Result (A * option StateTable).

(* [doExecTx]; [draft] is the overlay behind [stateAccess] and [tools], and
   is absent when [execTx] produced none *)
Definition doExecTx (table : StateTable) (tx : Tx) (draft : option StateTable)
    : Step (option InvokeResult) :=
  (* if (tx.isContractCreation()) { ... tx.to = tools.deployContract(...) } *)
  match (if isContractCreation tx then
           contractState ← prepareContract tx;
           match draft with
           | Some d =>
               let '(addr, d) := deployContract (from tx) contractState d in
               Ok (setTo (Some addr) tx, Some d)
           | None => Throw (TypeError "tools.deployContract is not a function")
           end
         else Ok (tx, draft)) with
  | Throw e => (table, Throw e)
  | Ok (tx, draft) =>
  (* (tools.refectTxValueAndFee || stateManager.handleTransfer)(tx) *)
  match (match draft with
         | Some d => d ← refectTxValueAndFee tx d; Ok (table, Some d)
         | None => Ok (handleTransfer tx table, None)
         end) with
  | Throw e => (table, Throw e)
  | Ok (table, draft) =>
  (* constructor, or the called method *)
  match (if isContractCreation tx then
           '(r, draft) ← invokeUpdate (to tx) "__on_deployed" (params (data tx)) tx draft;
           Ok (Some (setReturnValue (to tx) r), draft)
         else if isContractCall tx then
           if from_option (includes reserved) false (name (data tx))
           then Throw (Error "Calling this method directly is not allowed")
           else '(r, draft) ← invokeTx tx draft; Ok (Some r, draft)
         else Ok (None, draft)) with
  | Throw e => (table, Throw e)
  | Ok (result, draft) =>
  (* call __on_received *)
  match (if negb (value tx =? 0) && isRegularContract table (to tx)
            && negb (isContractCreation tx) && negb (isContractCall tx)
         then '(r, draft) ← invokeUpdate (to tx) "__on_received" (params (data tx)) tx draft;
              Ok (Some r, draft)
         else Ok (result, draft)) with
  | Throw e => (table, Throw e)
  | Ok (result, draft) =>
  (* refund of the unused fee *)
  match (match result, draft with
         | Some r, Some d =>
             match gasUsed r with
             | Some gas =>
                 if negb (gas =? 0) then
                   d ← refectTxValueAndFee
                         {| from := from tx; to := None; value := 0;
                            fee := - (fee tx - gas); data := data tx;
                            signers := signers tx |} d;
                   Ok (Some {| returnValue := returnValue r; tags := tags r;
                               gasUsed := None |}, Some d)
                 else Ok (result, draft)
             | None => Ok (result, draft)
             end
         | _, _ => Ok (result, draft)
         end) with
  | Throw e => (table, Throw e)
  | Ok (result, draft) =>
  (* emit Transferred event *)
  let result :=
    if 0 <? value tx then
      match result with
      | Some r =>
          Some {| returnValue := returnValue r;
                  tags := emitTransferred (Some (tags r)) (from tx) (to tx) (value tx);
                  gasUsed := gasUsed r |}
      | None =>
          Some {| returnValue := None;
                  tags := emitTransferred None (from tx) (to tx) (value tx);
                  gasUsed := None |}
      end
    else result in
  (table, Ok (result, draft))
  end end end end end.

(* [execTx]: the state manager after the call, and the value returned
   ([result || []]) or the error raised *)
Definition execTx (sm : StateManager) (tx : Tx)
    : StateManager * Result (option InvokeResult) :=
  match checkTx sm tx with
  | Throw e => (sm, Throw e)
  | Ok tx =>
      let sm := beginCheckpoint sm in
      let needState := willCallContract sm tx in
      let draft := if needState then Some (produceDraft sm) else None in
      match doExecTx (stateTable sm) tx draft with
      | (table, Throw e) => (withTable table sm, Throw e)
      | (table, Ok (result, patch)) =>
          let sm := withTable table sm in
          (* if (needState) stateManager.applyDraft(patch) *)
          let sm :=
            match patch with
            | Some p => if needState then applyDraft p sm else sm
            | None => sm
            end in
          let sm := endCheckpoint sm in
          (sm, Ok result)
      end
  end.

(** *** Validation *)

Lemma senderOf_setTo a tx : senderOf (setTo a tx) = senderOf tx.
Proof. done. Qed.

(* the part of [checkTx] that resolves the destination keeps the sender,
   the value and the fee *)
Lemma checkTx_insufficient sm tx :
  balanceOf sm (senderOf tx) < value tx + fee tx ->
  exists e, checkTx sm tx = Throw e.
Proof.
  intros Hbal. unfold checkTx.
  destruct (verifyTxSignature tx) as [[]|e]; simpl; [|eauto].
  set (resolved := match destination tx with Some _ => _ | None => _ end).
  assert (forall tx', resolved = Ok tx' ->
            senderOf tx' = senderOf tx /\ value tx' = value tx /\ fee tx' = fee tx
            /\ signers tx' = signers tx /\ from tx' = from tx) as Hres.
  { intros tx'. unfold resolved.
    destruct (destination tx) as [addr|].
    - destruct (_ensureAddress sm addr) as [addr'|]; simpl; [|done].
      destruct (if includesDot addr' then _ else _) as [[]|]; simpl; [|done].
      by intros [= <-].
    - destruct (negb (isContractCreation tx)); [done|]. by intros [= <-]. }
  destruct resolved as [tx'|e]; simpl; [|eauto].
  destruct (Hres tx' eq_refl) as (Hs & Hv & Hf & Hsig & Hfrom).
  destruct (match signers tx' with [] => _ | _ => _ end) as [[]|e]; simpl; [|eauto].
  destruct (checkPermission _ _ _) as [[]|e]; simpl; [|eauto].
  rewrite Hs, Hv, Hf.
  destruct (Z.ltb_spec (balanceOf sm (senderOf tx)) (value tx + fee tx)); [eauto|lia].
Qed.

(** C1. When value plus fee of a transaction exceeds the balance of its
    sender ([tx.from], or the first signer when [from] is not set),
    [checkTx] raises, and [execTx] raises the same error and leaves the
    state manager exactly as it was: the account store is the same and no
    checkpoint notification was sent. *)
Theorem execTx_insufficient_balance (sm : StateManager) (tx : Tx) :
  balanceOf sm (senderOf tx) < value tx + fee tx ->
  exists e, checkTx sm tx = Throw e /\ execTx sm tx = (sm, Throw e).
Proof.
  intros Hbal. destruct (checkTx_insufficient sm tx Hbal) as [e He].
  exists e. split; [done|]. unfold execTx. by rewrite He.
Qed.

(** *** Checkpoints *)

(* with a draft, nothing in [doExecTx] writes to the canonical table *)
Lemma doExecTx_draft_canonical table tx d :
  (doExecTx table tx (Some d)).1 = table.
Proof.
  unfold doExecTx, mbind, Result_bind.
  repeat (case_match; simpl in *; simplify_eq; try done).
Qed.

Lemma isRegularContract_addBalance a amount t b :
  isRegularContract (addBalance a amount t) b = isRegularContract t b.
Proof.
  unfold isRegularContract, addBalance.
  destruct (decide (a = propertyKey b)) as [->|Hne].
  - destruct (t !! propertyKey b) as [acc|] eqn:E; by rewrite lookup_insert_eq.
  - destruct (t !! a); by rewrite lookup_insert_ne.
Qed.

Lemma isRegularContract_handleTransfer tx t b :
  isRegularContract (handleTransfer tx t) b = isRegularContract t b.
Proof. unfold handleTransfer. by rewrite !isRegularContract_addBalance. Qed.

Lemma isRegularContract_isContract t a :
  isRegularContract t a = true -> isContract t a = true.
Proof.
  unfold isRegularContract, isContract, isContractAccount.
  destruct (t !! propertyKey a) as [acc|]; [|done].
  intros [H _]%andb_prop. by rewrite H.
Qed.

(* without a draft [execTx] only moves value and fee, and never raises *)
Lemma doExecTx_no_draft table tx :
  0 <= value tx ->
  isContractCreation tx = false -> isContractCall tx = false ->
  (0 <? value tx) && isContract table (to tx) = false ->
  exists result, doExecTx table tx None = (handleTransfer tx table, Ok (result, None)).
Proof.
  intros Hv Hcreate Hcall Hneed. unfold doExecTx. rewrite Hcreate, Hcall. simpl.
  assert (negb (value tx =? 0) && isRegularContract (handleTransfer tx table) (to tx)
          = false) as ->.
  { rewrite isRegularContract_handleTransfer.
    destruct (Z.eqb_spec (value tx) 0) as [|Hnz]; [done|]. simpl.
    destruct (isRegularContract table (to tx)) eqn:E; [|done].
    apply isRegularContract_isContract in E. rewrite E, andb_true_r in Hneed.
    apply Z.ltb_ge in Hneed. lia. }
  simpl. rewrite ?Hcreate, ?Hcall. simpl. eauto.
Qed.

Lemma checkTx_value sm tx tx' : checkTx sm tx = Ok tx' -> value tx' = value tx.
Proof.
  unfold checkTx, mbind, Result_bind.
  repeat (case_match; simpl in *; simplify_eq; try done).
  all: by intros [= <-].
Qed.

(** C2. For a transaction with a non-negative value: when [execTx] returns,
    exactly one [beginCheckpoint] notification followed by one
    [endCheckpoint] notification was sent; when it raises, the canonical
    account store is unchanged (no draft was applied), and either
    [checkTx] rejected the transaction and nothing was sent or the error
    came after [beginCheckpoint] and that notification is the only one
    sent: [endCheckpoint] is reached only on success. *)
Theorem execTx_checkpoint_discipline (sm : StateManager) (tx : Tx) :
  0 <= value tx ->
  match execTx sm tx with
  | (sm', Ok _) =>
      notified sm' = notified sm ++ [BeginCheckpoint; EndCheckpoint]
  | (sm', Throw e) =>
      stateTable sm' = stateTable sm /\
      ((checkTx sm tx = Throw e /\ notified sm' = notified sm) \/
       ((exists tx', checkTx sm tx = Ok tx') /\
        notified sm' = notified sm ++ [BeginCheckpoint]))
  end.
Proof.
  intros Hv. unfold execTx.
  destruct (checkTx sm tx) as [tx'|e] eqn:Hcheck; [|by split; [|left]].
  apply checkTx_value in Hcheck as Hv'. rewrite <- Hv' in Hv.
  destruct (willCallContract (beginCheckpoint sm) tx') eqn:Hneed.
  - pose proof (doExecTx_draft_canonical (stateTable (beginCheckpoint sm)) tx'
                  (produceDraft (beginCheckpoint sm))) as Htable.
    destruct (doExecTx _ tx' (Some _)) as [table [[result patch]|e]];
      simpl in Htable; subst table.
    + destruct patch; simpl; by rewrite <- app_assoc.
    + split; [done|]. right. split; [by eexists|done].
  - unfold willCallContract in Hneed.
    apply orb_false_elim in Hneed as [[Hcreate Hcall]%orb_false_elim Hrest].
    destruct (doExecTx_no_draft (stateTable (beginCheckpoint sm)) tx' Hv Hcreate Hcall Hrest)
      as [result ->].
    simpl. by rewrite <- app_assoc.
Qed.

(** *** What an accepted transaction looks like *)

Lemma checkTx_fields sm tx tx' :
  checkTx sm tx = Ok tx' ->
  value tx' = value tx /\ fee tx' = fee tx /\ data tx' = data tx /\
  signers tx' = signers tx /\ from tx' = senderOf tx.
Proof.
  unfold checkTx, mbind, Result_bind.
  repeat (case_match; simpl in *; simplify_eq; try done).
  all: by intros [= <-].
Qed.

(** X16. A transaction that [checkTx] accepts is signed, has a sender (the
    [from] it carried, or its first signer), can pay value and fee from the
    sender's balance, keeps its value, fee, data and signers, and has a
    destination only of three kinds: none (and the transaction deploys a
    contract), a name with a dot that starts with [system.], or an address
    that [validateAddress] accepted. With more than one signer [from] was
    given. *)
Theorem checkTx_accepted (sm : StateManager) (tx tx' : Tx) :
  checkTx sm tx = Ok tx' ->
  (exists s, head (signers tx) = Some s) /\
  from tx' = senderOf tx /\
  (1 < length (signers tx) -> truthy (from tx) = true)%nat /\
  value tx' + fee tx' <= balanceOf sm (from tx') /\
  value tx' = value tx /\ fee tx' = fee tx /\ data tx' = data tx /\
  signers tx' = signers tx /\
  match destination tx with
  | None => to tx' = to tx /\ isContractCreation tx' = true
  | Some _ =>
      exists addr, to tx' = Some addr /\
        if includesDot addr then String.prefix "system." addr = true
        else validateAddress addr = Ok ()
  end.
Proof.
  intros Hcheck. pose proof (checkTx_fields sm tx tx' Hcheck) as (Hv & Hf & Hd & Hs & Hfrom).
  revert Hcheck. unfold checkTx, mbind, Result_bind.
  destruct (verifyTxSignature tx) as [[]|]; [|done].
  destruct (destination tx) as [dest|] eqn:Hdest.
  - destruct (_ensureAddress sm dest) as [addr|]; [|done].
    destruct (includesDot addr) eqn:Hdot.
    + destruct (String.prefix "system." addr) eqn:Hsys; simpl; [|done].
      destruct (signers tx) as [|s [|s2 rest]] eqn:Hsig; simpl; [done| |].
      * destruct (bool_decide _); [done|]. simpl.
        destruct (checkPermission _ _ _) as [[]|]; [|done].
        destruct (Z.ltb_spec (balanceOf sm (senderOf (setTo (Some addr) tx)))
                    (value tx + fee tx)); [done|].
        intros [= <-]. simpl. repeat split; eauto; try lia.
        exists addr. by rewrite Hdot.
      * destruct (truthy (from tx)) eqn:Hfromt; simpl; [|done].
        destruct (checkPermission _ _ _) as [[]|]; [|done].
        destruct (Z.ltb_spec (balanceOf sm (senderOf (setTo (Some addr) tx)))
                    (value tx + fee tx)); [done|].
        intros [= <-]. simpl. repeat split; eauto; try lia.
        exists addr. by rewrite Hdot.
    + destruct (validateAddress addr) as [[]|] eqn:Hvalid; simpl; [|done].
      destruct (signers tx) as [|s [|s2 rest]] eqn:Hsig; simpl; [done| |].
      * destruct (bool_decide _); [done|]. simpl.
        destruct (checkPermission _ _ _) as [[]|]; [|done].
        destruct (Z.ltb_spec (balanceOf sm (senderOf (setTo (Some addr) tx)))
                    (value tx + fee tx)); [done|].
        intros [= <-]. simpl. repeat split; eauto; try lia.
        exists addr. by rewrite Hdot.
      * destruct (truthy (from tx)) eqn:Hfromt; simpl; [|done].
        destruct (checkPermission _ _ _) as [[]|]; [|done].
        destruct (Z.ltb_spec (balanceOf sm (senderOf (setTo (Some addr) tx)))
                    (value tx + fee tx)); [done|].
        intros [= <-]. simpl. repeat split; eauto; try lia.
        exists addr. by rewrite Hdot.
  - destruct (isContractCreation tx) eqn:Hcreate; simpl; [|done].
    destruct (signers tx) as [|s [|s2 rest]] eqn:Hsig; simpl; [done| |].
    + destruct (bool_decide _); [done|]. simpl.
      destruct (checkPermission _ _ _) as [[]|]; [|done].
      destruct (Z.ltb_spec (balanceOf sm (senderOf tx)) (value tx + fee tx)); [done|].
      intros [= <-]. simpl. repeat split; eauto; try lia.
    + destruct (truthy (from tx)) eqn:Hfromt; simpl; [|done].
      destruct (checkPermission _ _ _) as [[]|]; [|done].
      destruct (Z.ltb_spec (balanceOf sm (senderOf tx)) (value tx + fee tx)); [done|].
      intros [= <-]. simpl. repeat split; eauto; try lia.
Qed.

(** X17. [checkTx] fills in [from]. A transaction with a single signer that
    was accepted without [from] therefore carries [from] equal to that
    signer afterwards, and checking the same transaction object once more
    raises, whatever the state then is. *)
Theorem checkTx_twice_refused (sm sm2 : StateManager) (tx tx' : Tx) (s : string) :
  signers tx = [s] ->
  truthy (from tx) = false ->
  checkTx sm tx = Ok tx' ->
  from tx' = Some s /\ exists e, checkTx sm2 tx' = Throw e.
Proof.
  intros Hsig Hfrom Hcheck.
  destruct (checkTx_fields sm tx tx' Hcheck) as (_ & _ & _ & Hs & Hf).
  assert (from tx' = Some s) as Hfrom'.
  { rewrite Hf. unfold senderOf. by rewrite Hfrom, Hsig. }
  split; [done|].
  unfold checkTx, mbind, Result_bind.
  destruct (verifyTxSignature tx') as [[]|e]; [|eauto].
  destruct (destination tx') as [dest|].
  - destruct (_ensureAddress sm2 dest) as [addr|e]; [|eauto].
    destruct (if includesDot addr then _ else _) as [[]|e]; [|eauto].
    simpl. rewrite Hs, Hsig, Hfrom'.
    rewrite bool_decide_eq_true_2 by done. eauto.
  - destruct (negb (isContractCreation tx')); [eauto|].
    rewrite Hs, Hsig, Hfrom'. rewrite bool_decide_eq_true_2 by done. eauto.
Qed.

(** *** Execution *)

(** X18. The guard on reserved method names. A contract call accepted by
    [checkTx] whose method name is one of [constructor], [__on_received],
    [__on_deployed], [getState], [setState], [getEnv] never reaches the
    invoker: [execTx] raises, either the error of the fee and value
    transfer on the draft or "Calling this method directly is not allowed",
    and the canonical account store is as before; [beginCheckpoint] is the
    only notification sent. *)
Theorem execTx_reserved_refused (sm : StateManager) (tx tx' : Tx) (method : string) :
  checkTx sm tx = Ok tx' ->
  isContractCall tx = true ->
  name (data tx) = Some method ->
  includes reserved method = true ->
  exists e,
    execTx sm tx = (beginCheckpoint sm, Throw e) /\
    (e = Error "Calling this method directly is not allowed" \/
     refectTxValueAndFee tx' (stateTable sm) = Throw e).
Proof.
  intros Hcheck Hcall Hname Hres.
  destruct (checkTx_fields sm tx tx' Hcheck) as (_ & _ & Hd & _).
  assert (isContractCall tx' = true) as Hcall' by (unfold isContractCall; by rewrite Hd).
  assert (isContractCreation tx' = false) as Hcreate'.
  { unfold isContractCreation, isContractCall in *. rewrite Hd.
    by destruct (op (data tx)) as [[]|]. }
  unfold execTx. rewrite Hcheck. unfold willCallContract.
  rewrite Hcreate', Hcall'. simpl. unfold doExecTx. rewrite Hcreate', Hcall'. simpl.
  unfold produceDraft. simpl.
  destruct (refectTxValueAndFee tx' (stateTable sm)) as [d|e] eqn:Hrefect; simpl.
  - rewrite Hd, Hname. cbn [from_option]. rewrite Hres, ?Hcreate', ?Hcall'.
    eexists. split; [|by left]. first [reflexivity | f_equal; by destruct sm].
  - eexists. split; [|by right]. first [reflexivity | f_equal; by destruct sm].
Qed.

(** X19. A plain payment. A transaction accepted by [checkTx] that neither
    deploys nor calls a contract, has a non-negative value and either moves
    no value or pays an address that is not a contract is executed without
    a draft and without the invoker: [execTx] returns, the transfer is made
    on the canonical store between [beginCheckpoint] and [endCheckpoint],
    and the result holds the Transferred tags when value moved and is empty
    otherwise. *)
Theorem execTx_plain_payment (sm : StateManager) (tx tx' : Tx) :
  checkTx sm tx = Ok tx' ->
  0 <= value tx ->
  isContractCreation tx = false ->
  isContractCall tx = false ->
  value tx = 0 \/ isContract (stateTable sm) (to tx') = false ->
  execTx sm tx =
    (endCheckpoint (withTable (handleTransfer tx' (stateTable sm)) (beginCheckpoint sm)),
     Ok (if 0 <? value tx
         then Some {| returnValue := None;
                      tags := emitTransferred None (from tx') (to tx') (value tx);
                      gasUsed := None |}
         else None)).
Proof.
  intros Hcheck Hv Hcreate Hcall Hplain.
  destruct (checkTx_fields sm tx tx' Hcheck) as (Hv' & _ & Hd & _).
  assert (isContractCall tx' = false) as Hcall' by (unfold isContractCall; by rewrite Hd).
  assert (isContractCreation tx' = false) as Hcreate'
    by (unfold isContractCreation; by rewrite Hd).
  assert ((0 <? value tx') && isContract (stateTable sm) (to tx') = false) as Hneed.
  { rewrite Hv'. destruct Hplain as [-> | ->]; [done|]. by rewrite andb_false_r. }
  unfold execTx. rewrite Hcheck. unfold willCallContract.
  rewrite Hcreate', Hcall'. simpl. rewrite Hneed.
  unfold doExecTx. rewrite Hcreate', Hcall'. simpl.
  assert (negb (value tx' =? 0) && isRegularContract (handleTransfer tx' (stateTable sm)) (to tx')
          = false) as ->.
  { rewrite isRegularContract_handleTransfer.
    destruct (Z.eqb_spec (value tx') 0) as [|Hnz]; [done|]. simpl.
    destruct (isRegularContract (stateTable sm) (to tx')) eqn:E; [|done].
    apply isRegularContract_isContract in E. rewrite E, andb_true_r in Hneed.
    apply Z.ltb_ge in Hneed. lia. }
  simpl. rewrite ?Hcreate', ?Hcall'. simpl. rewrite Hv'.
  by destruct (0 <? value tx).
Qed.

End Pipeline.

(** *** A transaction that calls a reserved method *)

Definition bank : StateManager :=
  {| stateTable :=
       {[ "teat1alice" := {| balance := 100; src := None; system := false;
                             deployedBy := None |} ]};
     blockNumber := 1;
     notified := [] |}.

Definition reservedCall : Tx :=
  {| from := None; to := Some "teat1contract"; value := 0; fee := 0;
     data := {| op := Some OpCall; name := Some "constructor"; params := [] |};
     signers := ["teat1alice"] |}.

Definition overdraft : Tx :=
  {| from := None; to := Some "teat1bob"; value := 100; fee := 1;
     data := {| op := None; name := None; params := [] |};
     signers := ["teat1alice"] |}.

(* collaborators that accept everything; none of them raises *)
Definition accept {A} : A -> Result unit := fun _ => Ok ().
Definition noResult : InvokeResult :=
  {| returnValue := None; tags := []; gasUsed := None |}.

Definition runExecTx : StateManager -> Tx -> StateManager * Result (option InvokeResult) :=
  execTx accept (fun _ a => Ok a) accept (fun _ _ _ => Ok ())
    (fun _ => Ok "contractState")
    (fun _ _ d => ("teat1new", d))
    (fun tx d => Ok (handleTransfer tx d))
    (fun _ _ _ _ d => Ok (noResult, d))
    (fun _ d => Ok (noResult, d))
    (fun tags _ _ _ => default [] tags ++ [("EventNames", "Transferred")]).

(* the error is raised after [beginCheckpoint]; no [endCheckpoint] follows *)
Lemma execTx_reserved_call_leaves_checkpoint_open :
  exists sm',
    runExecTx bank reservedCall
      = (sm', Throw (Error "Calling this method directly is not allowed")) /\
    stateTable sm' = stateTable bank /\
    notified sm' = [BeginCheckpoint].
Proof. eexists. split; [reflexivity|]. split; reflexivity. Qed.

Lemma execTx_checkpoint_discipline_witness :
  match runExecTx bank reservedCall with
  | (sm', Ok _) => notified sm' = notified bank ++ [BeginCheckpoint; EndCheckpoint]
  | (sm', Throw e) =>
      stateTable sm' = stateTable bank /\
      ((checkTx accept (fun _ a => Ok a) accept (fun _ _ _ => Ok ()) bank reservedCall
          = Throw e /\ notified sm' = notified bank) \/
       ((exists tx', checkTx accept (fun _ a => Ok a) accept (fun _ _ _ => Ok ())
                       bank reservedCall = Ok tx') /\
        notified sm' = notified bank ++ [BeginCheckpoint]))
  end.
Proof.
  apply (execTx_checkpoint_discipline accept (fun _ a => Ok a) accept
           (fun _ _ _ => Ok ())). simpl. lia.
Defined.

Lemma execTx_insufficient_balance_witness :
  exists e,
    checkTx accept (fun _ a => Ok a) accept (fun _ _ _ => Ok ()) bank overdraft = Throw e /\
    runExecTx bank overdraft = (bank, Throw e).
Proof.
  apply (execTx_insufficient_balance accept (fun _ a => Ok a) accept
           (fun _ _ _ => Ok ())). vm_compute. reflexivity.
Defined.

(* the same transaction evaluated: the rejection is the balance check's *)
Example execTx_overdraft_rejected :
  runExecTx bank overdraft = (bank, Throw (Error "Not enough balance")).
Proof. reflexivity. Qed.

(** *** A payment, checked and executed *)

Definition payment : Tx :=
  {| from := None; to := Some "teat1bob"; value := 10; fee := 1;
     data := {| op := None; name := None; params := [] |};
     signers := ["teat1alice"] |}.

(* [payment] as [checkTx] leaves it *)
Definition checkedPayment : Tx := setFrom (Some "teat1alice") payment.

Definition runCheckTx : StateManager -> Tx -> Result Tx :=
  checkTx accept (fun _ a => Ok a) accept (fun _ _ _ => Ok ()).

Lemma checkTx_accepted_witness :
  (exists s, head (signers payment) = Some s) /\
  from checkedPayment = senderOf payment /\
  (1 < length (signers payment) -> truthy (from payment) = true)%nat /\
  value checkedPayment + fee checkedPayment <= balanceOf bank (from checkedPayment) /\
  value checkedPayment = value payment /\ fee checkedPayment = fee payment /\
  data checkedPayment = data payment /\
  signers checkedPayment = signers payment /\
  match destination payment with
  | None => to checkedPayment = to payment /\ isContractCreation checkedPayment = true
  | Some _ =>
      exists addr, to checkedPayment = Some addr /\
        if includesDot addr then String.prefix "system." addr = true
        else @accept string addr = Ok ()
  end.
Proof.
  apply (checkTx_accepted accept (fun _ a => Ok a) accept (fun _ _ _ => Ok ())
           bank payment checkedPayment).
  reflexivity.
Defined.

Lemma checkTx_twice_refused_witness :
  from checkedPayment = Some "teat1alice" /\
  exists e, runCheckTx bank checkedPayment = Throw e.
Proof.
  apply (checkTx_twice_refused accept (fun _ a => Ok a) accept (fun _ _ _ => Ok ())
           bank bank payment checkedPayment "teat1alice");
    reflexivity.
Defined.

Lemma execTx_reserved_refused_witness :
  exists e,
    runExecTx bank reservedCall = (beginCheckpoint bank, Throw e) /\
    (e = Error "Calling this method directly is not allowed" \/
     Ok (handleTransfer (setFrom (Some "teat1alice") reservedCall) (stateTable bank))
       = Throw e).
Proof.
  apply (execTx_reserved_refused accept (fun _ a => Ok a) accept (fun _ _ _ => Ok ())
           (fun _ => Ok "contractState")
           (fun _ _ d => ("teat1new", d))
           (fun tx d => Ok (handleTransfer tx d))
           (fun _ _ _ _ d => Ok (noResult, d))
           (fun _ d => Ok (noResult, d))
           (fun tags _ _ _ => default [] tags ++ [("EventNames", "Transferred")])
           bank reservedCall (setFrom (Some "teat1alice") reservedCall) "constructor");
    reflexivity.
Defined.

Lemma execTx_plain_payment_witness :
  runExecTx bank payment =
    (endCheckpoint (withTable (handleTransfer checkedPayment (stateTable bank))
                      (beginCheckpoint bank)),
     Ok (if 0 <? value payment
         then Some {| returnValue := None;
                      tags := default [] None ++ [("EventNames", "Transferred")];
                      gasUsed := None |}
         else None)).
Proof.
  apply (execTx_plain_payment accept (fun _ a => Ok a) accept (fun _ _ _ => Ok ())
           (fun _ => Ok "contractState")
           (fun _ _ d => ("teat1new", d))
           (fun tx d => Ok (handleTransfer tx d))
           (fun _ _ _ _ d => Ok (noResult, d))
           (fun _ d => Ok (noResult, d))
           (fun tags _ _ _ => default [] tags ++ [("EventNames", "Transferred")])
           bank payment checkedPayment).
  - reflexivity.
  - simpl. lia.
  - reflexivity.
  - reflexivity.
  - right. reflexivity.
Defined.

(** *** Listing the contracts *)

(* the object built by the [reduce] of [getContractAddresses]: for every
   alias, in key order, [prev[aliases[alias].address] = alias] *)
Definition address2Alias (aliases : Obj string) : Obj string :=
  fold_left (fun prev alias =>
               match obj_get alias aliases with
               | Some address => obj_set address alias prev
               | None => prev
               end)
            (obj_keys aliases) [].

(* [getContractAddresses]; [addreses] is the list of the state manager and
   [aliases] the object of the alias contract, from alias to address *)
Definition getContractAddresses (addreses : list string) (aliases : Obj string)
    (preferAlias : bool) : list string :=
  if negb preferAlias || bool_decide (addreses = []) then addreses
  else if bool_decide (obj_keys aliases = []) then addreses
  else
    let address2Alias := address2Alias aliases in
    map (fun addr => match obj_get addr address2Alias with
                     | Some alias => alias
                     | None => addr
                     end) addreses.

(* the aliases of an address, in key order *)
Definition aliasesOf (aliases : Obj string) (addr : string) : list string :=
  filter (fun alias => obj_get alias aliases = Some addr) (obj_keys aliases).

Lemma address2Alias_fold (aliases : Obj string) (keys : list string) (acc : Obj string)
    (addr : string) :
  obj_get addr
    (fold_left (fun prev alias =>
                  match obj_get alias aliases with
                  | Some address => obj_set address alias prev
                  | None => prev
                  end) keys acc)
  = match last (filter (fun alias => obj_get alias aliases = Some addr) keys) with
    | Some alias => Some alias
    | None => obj_get addr acc
    end.
Proof.
  revert acc. induction keys as [|k keys IH]; intros acc; simpl; [done|].
  rewrite IH. rewrite filter_cons.
  destruct (decide (obj_get k aliases = Some addr)) as [Hk|Hk].
  - rewrite Hk, obj_get_set_eq, last_cons.
    by destruct (last (filter _ keys)).
  - destruct (last (filter _ keys)); [done|].
    destruct (obj_get k aliases) as [address|]; [|done].
    apply obj_get_set_ne. congruence.
Qed.

(** X20. [getContractAddresses] keeps the list of contracts in length and
    order. Without [preferAlias] it is returned as it is; with it, every
    address is replaced by the last alias, in the key order of the alias
    object, that points to it, and stays when no alias does. *)
Theorem getContractAddresses_last_alias (addreses : list string) (aliases : Obj string) :
  getContractAddresses addreses aliases false = addreses /\
  getContractAddresses addreses aliases true
  = map (fun addr => default addr (last (aliasesOf aliases addr))) addreses.
Proof.
  split; [done|]. unfold getContractAddresses. simpl.
  destruct addreses as [|a rest]; [done|].
  rewrite bool_decide_eq_false_2 by done.
  case_bool_decide as Hkeys.
  - unfold aliasesOf. rewrite Hkeys. simpl. f_equal.
    induction rest as [|b rest IH]; simpl; [done|]. by f_equal.
  - apply map_ext. intros addr. unfold address2Alias.
    rewrite address2Alias_fold. unfold aliasesOf.
    by destruct (last _).
Qed.

(* two aliases of one contract: the one registered last is shown *)
Example getContractAddresses_two_aliases :
  getContractAddresses ["teat1faucet"; "teat1other"]
    [("system.faucet", "teat1faucet"); ("contract.tap", "teat1faucet")] true
  = ["contract.tap"; "teat1other"].
Proof. reflexivity. Qed.

End App.

(** ** The gate system contract: the provider registry and the delivery

    [registerProvider], [pauseProvider], [unregisterProvider],
    [getProvider] and [setResult], with the helpers they call. The values
    handled here are plain data: what a transaction passes as [options] or
    as a result and what the contract stores. *)

Module Providers.

#[warnings="-register-all"]
Inductive JsVal :=
| JUndefined
| JNull
| JBool (b : bool)
| JNum (n : Z)
| JStr (s : string)
| JObj (props : list (string * JsVal))
| JBuiltin (name : string).   (* a member of [Object.prototype] *)

Definition truthy (v : JsVal) : bool :=
  match v with
  | JUndefined | JNull => false
  | JBool b => b
  | JNum n => negb (n =? 0)
  | JStr s => negb (String.eqb s "")
  | JObj _ | JBuiltin _ => true
  end.

(* [o[k]] on a plain object: its own property, else what the prototype has
   under that name, else undefined *)
Definition lookupProp (o : Obj JsVal) (k : string) : JsVal :=
  match obj_get k o with
  | Some v => v
  | None => if includes objectPrototypeNames k then JBuiltin k else JUndefined
  end.

(* [v.k] for the property names the contract reads ([awardAddress],
   [encryptionPubKey], [topics], [operator]): an object has the property or
   not, a primitive value or a member of the prototype has none of them,
   and reading from [undefined] or [null] raises *)
Definition getProp (v : JsVal) (k : string) : Result JsVal :=
  match v with
  | JUndefined => Throw (TypeError ("Cannot read property '" +:+ k +:+ "' of undefined"))
  | JNull => Throw (TypeError ("Cannot read property '" +:+ k +:+ "' of null"))
  | JObj props => Ok (lookupProp props k)
  | _ => Ok JUndefined
  end.

Record Msg := {
  sender : string;
  value : Z;
  signers : list string }.

Record Block := {
  number : Z;
  timestamp : Z }.

(* the contract's context: the object stored under [PROVIDERS_KEY], which
   only [_saveProviders] writes, what is stored under the other keys (the
   counters and the requests), and the events emitted so far *)
Record Context := {
  providers : option (Obj JsVal);
  others : gmap string JsVal;
  events : list (string * JsVal) }.

(* [c.getState(PROVIDERS_KEY, {})] *)
Definition _getProviders (c : Context) : Obj JsVal := default [] (providers c).

(* [c.setState(PROVIDERS_KEY, p)] *)
Definition _saveProviders (c : Context) (p : Obj JsVal) : Context :=
  {| providers := Some p; others := others c; events := events c |}.

Definition emitEvent (eventName : string) (eventData : JsVal) (c : Context) : Context :=
  {| providers := providers c; others := others c;
     events := events c ++ [(eventName, eventData)] |}.

(* [Object.prototype.hasOwnProperty.call(providers, key)] *)
Definition hasOwnProperty (o : Obj JsVal) (key : string) : bool :=
  bool_decide (is_Some (obj_get key o)).

Definition _assignOptions (p : Obj JsVal) (options : JsVal) : Result (Obj JsVal) :=
  awardAddress ← getProp options "awardAddress";
  let p := if truthy awardAddress then obj_set "awardAddress" awardAddress p else p in
  encryptionPubKey ← getProp options "encryptionPubKey";
  let p := if truthy encryptionPubKey
           then obj_set "encryptionPubKey" encryptionPubKey p else p in
  topics ← getProp options "topics";
  let p := if truthy topics then obj_set "encryptionPubKey" topics p else p in
  Ok p.

(* [providerAddr || msg.sender] *)
Definition addrOr (providerAddr : option string) (msg : Msg) : string :=
  match providerAddr with
  | Some a => if String.eqb a "" then sender msg else a
  | None => sender msg
  end.

Section Registry.
Variable minProviderDeposit : Z.
(* [did.checkPermission(operator, signers, timestamp)] *)
Variable checkPermission : JsVal -> list string -> Z -> Result unit.

(* [_getProviderWithCheck]; [env] is the pair of [block] and [msg], absent
   when the caller passes neither. Only an object can have an [operator]. *)
Definition _getProviderWithCheck (context : Context) (providerAddr : string)
    (env : option (Block * Msg)) : Result (Obj JsVal * Obj JsVal) :=
  let providers := _getProviders context in
  let invalid := Error ("Invalid provider address " +:+ providerAddr +:+ ".") in
  match lookupProp providers providerAddr with
  | JObj p =>
      let operator := lookupProp p "operator" in
      if negb (truthy operator) then Throw invalid
      else
        match env with
        | Some (block, msg) =>
            _ ← checkPermission operator (signers msg) (timestamp block);
            Ok (p, providers)
        | None => Throw (TypeError "Cannot read property 'signers' of undefined")
        end
  | _ => Throw invalid
  end.

(* [_setProviderProp]: the check is called with [context] and
   [providerAddr] only *)
Definition _setProviderProp (context : Context) (providerAddr prop : string)
    (v : JsVal) : Result (Obj JsVal * Context) :=
  '(p, _) ← _getProviderWithCheck context providerAddr None;
  let p := obj_set prop v p in
  Ok (p, _saveProviders context p).

(* [options = {}] applies when the argument is [undefined] *)
Definition registerProvider (context : Context) (msg : Msg)
    (providerAddr : option string) (options : JsVal) : Result Context :=
  let options := match options with JUndefined => JObj [] | _ => options end in
  let providerAddr := addrOr providerAddr msg in
  if value msg <? minProviderDeposit
  then Throw (Error ("Gate Provider must deposit at least "
                       +:+ pretty minProviderDeposit +:+ "."))
  else
    let providers := _getProviders context in
    if hasOwnProperty providers providerAddr
    then Throw (Error ("Provider " +:+ providerAddr +:+ " already exists."))
    else
      p ← _assignOptions [("deposit", JNum (value msg)); ("operator", JStr (sender msg))]
                         options;
      let context := _saveProviders context p in
      Ok (emitEvent "ProviderRegistered" (JObj p) context).

(* [getProvider]; [_.cloneDeep] returns an equal value *)
Definition getProvider (context : Context) (providerAddr : string) : JsVal :=
  lookupProp (_getProviders context) providerAddr.

Definition pauseProvider (context : Context) (block : Block) (msg : Msg)
    (providerAddr : option string) : Result Context :=
  let providerAddr := addrOr providerAddr msg in
  '(p, context) ← _setProviderProp context providerAddr "paused" (JNum (number block));
  Ok (emitEvent "ProviderPaused" (JObj p) context).

Definition unregisterProvider (context : Context) (block : Block) (msg : Msg)
    (providerAddr : option string) : Result Context :=
  let providerAddr := addrOr providerAddr msg in
  '(p, context) ← _setProviderProp context providerAddr "unregistered" (JNum (number block));
  Ok (emitEvent "ProviderUnregistered" (JObj p) context).

(* the property names of a record built by [registerProvider] *)
Definition recordFields : list string :=
  ["deposit"; "operator"; "awardAddress"; "encryptionPubKey"].

Lemma _assignOptions_fields p options p' key :
  _assignOptions p options = Ok p' ->
  includes recordFields key = false ->
  obj_get key p' = obj_get key p.
Proof.
  unfold _assignOptions, mbind, Result_bind. intros Hp Hkey.
  assert (key <> "awardAddress" /\ key <> "encryptionPubKey") as [Ha He].
  { split; intros ->; discriminate. }
  destruct (getProp options "awardAddress") as [a|]; [|done].
  destruct (getProp options "encryptionPubKey") as [e|]; [|done].
  destruct (getProp options "topics") as [t|]; [|done].
  injection Hp as <-.
  destruct (truthy a), (truthy e), (truthy t);
    rewrite ?obj_get_set_ne by congruence; done.
Qed.

Lemma _assignOptions_operator p options p' :
  _assignOptions p options = Ok p' ->
  obj_get "operator" p' = obj_get "operator" p /\
  obj_get "deposit" p' = obj_get "deposit" p.
Proof.
  unfold _assignOptions, mbind, Result_bind. intros Hp.
  destruct (getProp options "awardAddress") as [a|]; [|done].
  destruct (getProp options "encryptionPubKey") as [e|]; [|done].
  destruct (getProp options "topics") as [t|]; [|done].
  injection Hp as <-.
  destruct (truthy a), (truthy e), (truthy t);
    rewrite ?obj_get_set_ne by discriminate; done.
Qed.

(** X21. [registerProvider] stores the record of the new provider as the
    whole registry. After a registration that succeeds the stored object
    has the registrant's deposit and operator as its properties and no
    property of its own under any address, whatever was registered before:
    for every name that is not a field of the record the ownership test of
    [registerProvider] and [setResult] fails and, unless the name is
    inherited from the prototype, [getProvider] is undefined; and
    registering the same address once more succeeds again instead of being
    refused as existing. *)
Theorem registerProvider_replaces_registry (context context' : Context) (msg : Msg)
    (providerAddr : option string) (options : JsVal) :
  registerProvider context msg providerAddr options = Ok context' ->
  getProvider context' "deposit" = JNum (value msg) /\
  getProvider context' "operator" = JStr (sender msg) /\
  (forall addr, includes recordFields addr = false ->
     hasOwnProperty (_getProviders context') addr = false /\
     (includes objectPrototypeNames addr = false ->
        getProvider context' addr = JUndefined)) /\
  (includes recordFields (addrOr providerAddr msg) = false ->
     exists context'',
       registerProvider context' msg providerAddr options = Ok context'').
Proof.
  unfold registerProvider. intros Hreg.
  destruct (value msg <? minProviderDeposit) eqn:Hdep; [done|].
  destruct (hasOwnProperty (_getProviders context) (addrOr providerAddr msg)); [done|].
  destruct (_assignOptions _ _) as [p|] eqn:Hp; [|done].
  simpl in Hreg. injection Hreg as <-.
  destruct (_assignOptions_operator _ _ _ Hp) as [Hop Hdeposit].
  assert (forall addr, includes recordFields addr = false -> obj_get addr p = None) as Hnone.
  { intros addr Haddr. rewrite (_assignOptions_fields _ _ _ addr Hp Haddr). simpl.
    destruct (String.eqb addr "deposit") eqn:E1.
    { apply String.eqb_eq in E1. by subst. }
    destruct (String.eqb addr "operator") eqn:E2; [|done].
    apply String.eqb_eq in E2. by subst. }
  unfold getProvider, _getProviders, lookupProp. simpl.
  rewrite Hop, Hdeposit. simpl.
  split; [done|]. split; [done|]. split.
  - intros addr Haddr. unfold hasOwnProperty. rewrite (Hnone addr Haddr).
    split; [apply bool_decide_eq_false_2; by intros [? ?]|].
    by intros ->.
  - intros Haddr. unfold hasOwnProperty. rewrite (Hnone _ Haddr).
    rewrite bool_decide_eq_false_2 by (by intros [? ?]).
    eauto.
Qed.

(** X22. [pauseProvider] and [unregisterProvider] never complete. Both go
    through [_setProviderProp], which calls [_getProviderWithCheck] without
    the block and the message: an address that is not a stored record with
    an operator is refused as invalid, and for one that is, reading
    [msg.signers] raises. Nothing is stored and no event is emitted. *)
Theorem pause_and_unregister_always_throw (context : Context) (block : Block)
    (msg : Msg) (providerAddr : option string) :
  (exists e, pauseProvider context block msg providerAddr = Throw e) /\
  (exists e, unregisterProvider context block msg providerAddr = Throw e).
Proof.
  unfold pauseProvider, unregisterProvider, _setProviderProp, _getProviderWithCheck.
  destruct (lookupProp (_getProviders context) (addrOr providerAddr msg)) as [| | | | |p|];
    simpl; eauto.
  destruct (truthy (lookupProp p "operator")); simpl; eauto.
Qed.

End Registry.

Definition empty : Context := {| providers := None; others := ∅; events := [] |}.

Definition deposit20 : Msg :=
  {| sender := "teat1provider"; value := 20; signers := ["teat1provider"] |}.

Definition afterFirst : Context :=
  {| providers :=
       Some [("deposit", JNum 20); ("operator", JStr "teat1provider");
             ("encryptionPubKey", JStr "weather")];
     others := ∅;
     events :=
       [("ProviderRegistered",
         JObj [("deposit", JNum 20); ("operator", JStr "teat1provider");
               ("encryptionPubKey", JStr "weather")])] |}.

Lemma registerProvider_replaces_registry_witness :
  getProvider afterFirst "deposit" = JNum (value deposit20) /\
  getProvider afterFirst "operator" = JStr (sender deposit20) /\
  (forall addr, includes recordFields addr = false ->
     hasOwnProperty (_getProviders afterFirst) addr = false /\
     (includes objectPrototypeNames addr = false ->
        getProvider afterFirst addr = JUndefined)) /\
  (includes recordFields (addrOr None deposit20) = false ->
     exists context'',
       registerProvider 10 afterFirst deposit20 None (JObj [("topics", JStr "weather")])
         = Ok context'').
Proof.
  apply (registerProvider_replaces_registry 10 empty afterFirst deposit20 None
           (JObj [("topics", JStr "weather")])).
  reflexivity.
Defined.

(** *** Delivery of a result *)

Definition PROVIDERS_KEY : string := "prividers".

(** Modelled from the spec: the execution context of a system contract is
    not part of the sources. [this.getState(key)] gives the value stored
    under the key, or undefined when there is none, as [getState] of
    [contextForWrite] in [vm/js/Context.js] does. *)
Definition getState (this : Context) (key : string) : JsVal :=
  if String.eqb key PROVIDERS_KEY
  then match providers this with Some p => JObj p | None => JUndefined end
  else default JUndefined (others this !! key).

(** Modelled from the spec: [deleteState] of the system-contract context is
    not part of the sources; it "deletes the pending request record", that
    is, it removes the key from the contract's state. *)
Definition deleteState (key : string) (this : Context) : Context :=
  if String.eqb key PROVIDERS_KEY
  then {| providers := None; others := others this; events := events this |}
  else {| providers := providers this; others := delete key (others this);
          events := events this |}.

Section Delivery.
(* [loadContract(requester).onOffchainData.invokeUpdate(requestId,
   requestData, result)]: runs the requester's callback, which may itself
   call back into the gate and may raise *)
Variable onOffchainData :
  JsVal -> string -> JsVal -> JsVal -> Context -> Result (JsVal * Context).

Definition setResult (this : Context) (msg : Msg) (requestId : string)
    (result : JsVal) : Result (JsVal * Context) :=
  let providers := _getProviders this in
  if negb (hasOwnProperty providers (sender msg))
  then Throw (Error ("Provider not registered: " +:+ sender msg +:+ "."))
  else
    let requestData := getState this requestId in
    if negb (truthy requestData)
    then Throw (Error ("Request " +:+ requestId +:+ " no longer exists."))
    else
      options ← getProp requestData "options";
      requester ← getProp options "requester";
      '(r, this) ← onOffchainData requester requestId requestData result this;
      Ok (r, deleteState requestId this).

(** C9. No provider that registered can deliver. [registerProvider] stores
    the registrant's record as the whole providers object, so after any
    registration that succeeds, and in every later state with that
    providers object, [setResult] by a sender whose address is not the name
    of a field of the record (deposit, operator, awardAddress,
    encryptionPubKey) raises "Provider not registered: <sender>." for every
    request id and result: the requester's callback is not invoked and the
    stored request is not deleted. *)
Theorem setResult_refuses_registered (minProviderDeposit : Z)
    (context context' : Context) (registrant : Msg) (providerAddr : option string)
    (options : JsVal) (this : Context) (provider : Msg) (requestId : string)
    (result : JsVal) :
  registerProvider minProviderDeposit context registrant providerAddr options
    = Ok context' ->
  providers this = providers context' ->
  includes recordFields (sender provider) = false ->
  setResult this provider requestId result
    = Throw (Error ("Provider not registered: " +:+ sender provider +:+ ".")).
Proof.
  intros Hreg Hsame Haddr.
  assert (hasOwnProperty (_getProviders this) (sender provider) = false) as Hown.
  { unfold registerProvider in Hreg.
    destruct (value registrant <? minProviderDeposit); [done|].
    destruct (hasOwnProperty (_getProviders context) (addrOr providerAddr registrant));
      [done|].
    destruct (_assignOptions _ _) as [p|] eqn:Hp; [|done].
    simpl in Hreg. injection Hreg as <-. simpl in Hsame.
    unfold hasOwnProperty, _getProviders. rewrite Hsame. simpl.
    rewrite (_assignOptions_fields _ _ _ (sender provider) Hp Haddr).
    apply bool_decide_eq_false_2. intros [v Hv]. simpl in Hv.
    destruct (String.eqb_spec (sender provider) "deposit") as [E|_];
      [rewrite E in Haddr; discriminate|].
    destruct (String.eqb_spec (sender provider) "operator") as [E|_];
      [rewrite E in Haddr; discriminate|].
    discriminate. }
  unfold setResult. by rewrite Hown.
Qed.

End Delivery.

(* the request [teat1caller_0] as [request] stored it *)
Definition weatherRequest : JsVal :=
  JObj [("path", JStr "weather"); ("data", JUndefined);
        ("options", JObj [("requester", JStr "teat1caller")])].

Definition requests : gmap string JsVal :=
  {[ "teat1caller_c" := JNum 0; "teat1caller_0" := weatherRequest ]}.

(* the gate after [teat1provider] registered and [teat1caller] asked *)
Definition asked : Context :=
  {| providers := Some [("deposit", JNum 20); ("operator", JStr "teat1provider")];
     others := requests;
     events :=
       [("ProviderRegistered",
         JObj [("deposit", JNum 20); ("operator", JStr "teat1provider")])] |}.

(* a callback that returns and leaves the gate's state alone *)
Definition echo : JsVal -> string -> JsVal -> JsVal -> Context -> Result (JsVal * Context) :=
  fun _ _ _ result this => Ok (result, this).

Lemma setResult_refuses_registered_witness :
  setResult echo asked deposit20 "teat1caller_0" (JStr "sunny")
    = Throw (Error ("Provider not registered: " +:+ sender deposit20 +:+ ".")).
Proof.
  apply (setResult_refuses_registered echo 10
           {| providers := None; others := requests; events := [] |}
           asked deposit20 None JUndefined asked deposit20 "teat1caller_0" (JStr "sunny"));
    reflexivity.
Defined.

(* were the record stored under the provider's address, the first delivery
   would return the callback's result and delete the request, and the second
   would find none *)
Definition keyed : Context :=
  {| providers :=
       Some [("teat1provider",
              JObj [("deposit", JNum 20); ("operator", JStr "teat1provider")])];
     others := requests; events := [] |}.

Example setResult_keyed_registry :
  setResult echo keyed deposit20 "teat1caller_0" (JStr "sunny")
    = Ok (JStr "sunny", deleteState "teat1caller_0" keyed) /\
  setResult echo (deleteState "teat1caller_0" keyed) deposit20 "teat1caller_0" (JStr "sunny")
    = Throw (Error "Request teat1caller_0 no longer exists.").
Proof. split; vm_compute; reflexivity. Qed.

End Providers.

(** ** The block explorer page: abbreviating hashes and addresses *)

Module Web.

Local Open Scope nat_scope.

(* [fmtHex(hex, c)]: [hex] may be undefined and [c] may be left out; a
   count that is given is a natural number *)
Definition fmtHex (hex : option string) (c : option nat) : option string :=
  match hex with
  | None => None
  | Some s =>
      if String.eqb s "" then hex
      else if match c with
              | Some c => String.length s <? c * 2 + 4
              | None => false   (* [undefined * 2 + 4] is NaN *)
              end
      then hex
      else
        (* c = c || 4 *)
        let c := match c with Some (S c') => S c' | _ => 4 end in
        (* hex.substr(0, c) + '...' + hex.substr(-c) *)
        Some (String.substring 0 c s +:+ "..."
              +:+ String.substring (String.length s - c) (String.length s) s)
  end.

Lemma length_append (a b : string) :
  String.length (a +:+ b) = String.length a + String.length b.
Proof. induction a as [|x a IH]; simpl; [done|]. by rewrite IH. Qed.

Lemma substring_all (s : string) (m : nat) :
  String.length s <= m -> String.substring 0 m s = s.
Proof.
  revert m. induction s as [|x s IH]; intros [|m] H; simpl in *; try done; try lia.
  f_equal. apply IH. lia.
Qed.

Lemma substring_to_end (s : string) (n m : nat) :
  String.length s - n <= m ->
  String.substring n m s = String.substring n (String.length s - n) s.
Proof.
  revert n. induction s as [|x s IH]; intros n H.
  - by destruct n, m.
  - destruct n as [|n].
    + rewrite !substring_all; [done| |]; simpl in *; lia.
    + simpl. apply IH. simpl in H. lia.
Qed.

Lemma substring_split (s : string) (n : nat) :
  n <= String.length s ->
  s = String.substring 0 n s +:+ String.substring n (String.length s - n) s.
Proof.
  revert n. induction s as [|x s IH]; intros [|n] H; simpl in *; try done; try lia.
  - rewrite Gate.append_nil_l. f_equal. by rewrite substring_all.
  - rewrite Gate.append_cons. f_equal. apply IH. lia.
Qed.

Lemma length_substring (s : string) (n m : nat) :
  String.length (String.substring n m s) = Nat.min m (String.length s - n).
Proof.
  revert n m. induction s as [|x s IH]; intros [|n] [|m]; simpl; try done.
  all: by rewrite IH, ?Nat.sub_0_r.
Qed.

Lemma substring_append_r (a b : string) (n m : nat) :
  String.substring (String.length a + n) m (a +:+ b) = String.substring n m b.
Proof. induction a as [|x a IH]; simpl; [done|]. apply IH. Qed.

(** X23. [fmtHex] with a count: a string shorter than twice the count plus
    four is returned as it is, and a longer one keeps its first [c] and its
    last [c] characters with the middle, four characters or more, replaced
    by three dots, so that the result is shorter than the string. *)
Theorem fmtHex_abbreviates (s : string) (c : nat) :
  0 < c ->
  (String.length s < c * 2 + 4 -> fmtHex (Some s) (Some c) = Some s) /\
  (c * 2 + 4 <= String.length s ->
     exists front middle back,
       s = front +:+ middle +:+ back /\
       String.length front = c /\ String.length back = c /\
       4 <= String.length middle /\
       fmtHex (Some s) (Some c) = Some (front +:+ "..." +:+ back) /\
       String.length (front +:+ "..." +:+ back) < String.length s).
Proof.
  intros Hc. unfold fmtHex. split.
  - intros Hshort. destruct (String.eqb s ""); [done|].
    by rewrite (proj2 (Nat.ltb_lt _ _) Hshort).
  - intros Hlong.
    destruct (String.eqb_spec s "") as [->|_]; [simpl in Hlong; lia|].
    rewrite (proj2 (Nat.ltb_ge _ _) Hlong).
    destruct c as [|c']; [lia|]. set (c := S c') in *.
    set (L := String.length s) in *.
    set (rest := String.substring c (L - c) s).
    assert (s = String.substring 0 c s +:+ rest) as Hs by (apply substring_split; lia).
    assert (String.length (String.substring 0 c s) = c) as Hfront
      by (rewrite length_substring; fold L; lia).
    assert (String.length rest = L - c) as Hrest
      by (unfold rest; rewrite length_substring; fold L; lia).
    assert (String.substring (L - c) L s = String.substring (L - c * 2) c rest) as Hback.
    { rewrite Hs at 1. replace (L - c) with (String.length (String.substring 0 c s)
                                               + (L - c * 2)) at 1 by lia.
      rewrite substring_append_r.
      rewrite (substring_to_end rest (L - c * 2) L) by lia.
      rewrite (substring_to_end rest (L - c * 2) c) by lia. done. }
    exists (String.substring 0 c s), (String.substring 0 (L - c * 2) rest),
           (String.substring (L - c * 2) c rest).
    assert (String.length (String.substring (L - c * 2) c rest) = c) as Hlenback
      by (rewrite length_substring; lia).
    assert (String.length (String.substring 0 (L - c * 2) rest) = L - c * 2) as Hlenmid
      by (rewrite length_substring; lia).
    split; [|split; [done|split; [done|split; [lia|split]]]].
    + rewrite Hs at 1. f_equal.
      rewrite (substring_split rest (L - c * 2)) at 1 by lia. f_equal.
      apply eq_sym, substring_to_end. lia.
    + by rewrite Hback.
    + rewrite !length_append, Hfront, Hlenback. simpl. lia.
Qed.


Lemma fmtHex_abbreviates_witness :
  (String.length "0123456789abcdef" < 6 * 2 + 4 ->
     fmtHex (Some "0123456789abcdef") (Some 6) = Some "0123456789abcdef") /\
  (6 * 2 + 4 <= String.length "0123456789abcdef" ->
     exists front middle back,
       "0123456789abcdef" = front +:+ middle +:+ back /\
       String.length front = 6 /\ String.length back = 6 /\
       4 <= String.length middle /\
       fmtHex (Some "0123456789abcdef") (Some 6) = Some (front +:+ "..." +:+ back) /\
       String.length (front +:+ "..." +:+ back) < String.length "0123456789abcdef").
Proof. apply (fmtHex_abbreviates "0123456789abcdef" 6). lia. Defined.


(* a sixteen-character hash with the count 6, and a short name without *)
Example fmtHex_samples :
  fmtHex (Some "0123456789abcdef") (Some 6) = Some "012345...abcdef" /\
  fmtHex (Some "teat1") None = Some "teat...eat1" /\
  fmtHex (Some "ab") None = Some "ab...ab" /\
  fmtHex None None = None.
Proof. repeat split. Qed.

End Web.
